(** * standard_judge.py: the judging orchestrator, embedded and verified

    The script fetches a batch of solutions from a callback API, submits
    each one to a judge, polls for the verdicts and uploads the results;
    a top-level handler reports a failed run.

    The embedding is shallow.  The script talks to three outside parties:
    the HTTP services reached through [requests], the judge client of
    module [judge] and the clock.  They are gathered in one record [Env]
    of oracles, each of which answers from the history of what the script
    has done so far, so that an answer may change from one call to the
    next.  The script itself is a computation in a state-and-exception
    monad over a [World]: the module-level variable [token] and the
    chronological trace of the calls made.

    What the script writes to its logger is not modelled.  The exceptions
    are those that derive from [Exception]; an interrupt of the process
    is outside the model. *)

From Stdlib Require Import String Ascii List ZArith QArith Qround Bool Lia.
From Stdlib Require Import PrimFloat FloatOps SpecFloat.
From stdpp Require Import base tactics option list.

Import ListNotations.
Local Open Scope string_scope.
Local Open Scope list_scope.

Set Default Proof Using "Type".
Set Warnings "-register-all".

(** ** Python values *)

(** A [str] is modelled by [string], one character per code point; the
    model covers the code points 0 to 255. *)

(** What [json.loads] produces.  An object is the list of its items, each
    key occurring once. *)
Inductive JSON : Type :=
| JNull
| JBool (b : bool)
| JNum (q : Q)
| JStr (s : string)
| JArr (l : list JSON)
| JObj (kv : list (string * JSON)).

(** Truth value of a [str]: the empty string is false. *)
Definition truthy (s : string) : bool :=
  match s with EmptyString => false | String _ _ => true end.

(** Truth value of a [str | None]. *)
Definition truthy_opt (o : option string) : bool :=
  match o with None => false | Some s => truthy s end.

(** Truth value of an [int | None]: [None] and [0] are false. *)
Definition truthy_int (o : option Z) : bool :=
  match o with None => false | Some n => negb (n =? 0)%Z end.

(** [a or b] on [str | None] operands. *)
Definition py_or (a b : option string) : option string :=
  if truthy_opt a then a else b.

(** [str.isspace] on one character: TAB to CR, FS to US, space, NEL and
    the no-break space. *)
Definition isspace (c : ascii) : bool :=
  let n := nat_of_ascii c in
  (((9 <=? n) && (n <=? 13)) || ((28 <=? n) && (n <=? 32))
   || (n =? 133) || (n =? 160))%nat.

Fixpoint lstrip (s : string) : string :=
  match s with
  | EmptyString => EmptyString
  | String c s' => if isspace c then lstrip s' else s
  end.

Fixpoint rstrip (s : string) : string :=
  match s with
  | EmptyString => EmptyString
  | String c s' =>
      match rstrip s' with
      | EmptyString => if isspace c then EmptyString else String c EmptyString
      | r => String c r
      end
  end.

(** [s.strip()] *)
Definition strip (s : string) : string := rstrip (lstrip s).

(** [s.startswith(p)] *)
Definition startswith (s p : string) : bool := String.prefix p s.

(** ** Numbers

    A Python [float] is a binary64 number: [float] is the kernel's
    binary64 type, and [PrimFloat.add] its addition, rounded to nearest,
    ties to even. *)

(** [n > f] for an [int] and a [float]: Python compares the two exactly,
    without rounding the integer. *)
Definition int_gt_float (n : Z) (f : float) : bool :=
  match Prim2SF f with
  | S754_zero _ => (0 <? n)%Z
  | S754_infinity negative => negative
  | S754_nan => false
  | S754_finite negative m e =>
      let v := if negative then Z.neg m else Z.pos m in
      if (0 <=? e)%Z then (v * 2 ^ e <? n)%Z
      else (v <? n * 2 ^ (- e))%Z
  end.

(** What [jwt.decode(t, ...)["exp"]] can evaluate to, the payload of a
    token being a JSON object: an [int] (a bool counts as one), a
    [float], or a value that cannot be compared with a [float] (a
    string, [None], a list or a dict). *)
Inductive expiry : Type :=
| ExpInt (n : Z)
| ExpFloat (f : float)
| ExpOther.

(** [exp > f] for a [float] [f]: [None] when the comparison raises
    TypeError. *)
Definition py_gt (exp : expiry) (f : float) : option bool :=
  match exp with
  | ExpInt n => Some (int_gt_float n f)
  | ExpFloat g => Some (PrimFloat.ltb f g)
  | ExpOther => None
  end.

(** ** Exceptions

    Every class below derives from [Exception]. *)
Inductive exn : Type :=
| HTTPError (status : Z)            (* requests: raise_for_status() *)
| RequestException (msg : string)   (* requests: the transport failed *)
| JSONDecodeError                   (* response.json() *)
| TypeError                         (* iterating, unpacking, comparing *)
| ValidationError                   (* pydantic *)
| InvalidTokenError                 (* jwt.decode(...)["exp"] *)
| ProblemNotFoundError (msg : string)
| JudgeError (msg : string).        (* any other exception of the judge *)

Definition is_ProblemNotFoundError (e : exn) : bool :=
  match e with ProblemNotFoundError _ => true | _ => false end.

(** ** The two pydantic models *)

Module BenchmarkResult.
Record t : Type := Build {
  problem_id : string;
  problem_title : string;
  difficulty : string;
  platform : string;
  text_response : string;
  code : option string;
  judge_result : string;
  response_meta : JSON
}.

Definition set_code (c : option string) (r : t) : t :=
  Build (problem_id r) (problem_title r) (difficulty r) (platform r)
        (text_response r) c (judge_result r) (response_meta r).
End BenchmarkResult.

Module ProblemTestState.
Record t : Type := Build {
  problem_id : string;
  problem_title : string;
  difficulty : string;
  platform : string;
  text_response : option string;
  code : option string;
  submission_id : option Z;
  judge_result : string;
  response_meta : JSON
}.

Definition set_submission_id (i : option Z) (s : t) : t :=
  Build (problem_id s) (problem_title s) (difficulty s) (platform s)
        (text_response s) (code s) i (judge_result s) (response_meta s).

Definition set_judge_result (v : string) (s : t) : t :=
  Build (problem_id s) (problem_title s) (difficulty s) (platform s)
        (text_response s) (code s) (submission_id s) v (response_meta s).
End ProblemTestState.

(** A dict with [str] keys, as [model_dump()] returns and [**] takes. *)
Definition pydict : Type := list (string * JSON).

Fixpoint dict_get (k : string) (d : pydict) : option JSON :=
  match d with
  | [] => None
  | (k', v) :: d' => if String.eqb k k' then Some v else dict_get k d'
  end.

Definition keys (d : pydict) : list string := map fst d.

Definition json_of_opt_str (o : option string) : JSON :=
  match o with None => JNull | Some s => JStr s end.

Definition json_of_opt_int (o : option Z) : JSON :=
  match o with None => JNull | Some n => JNum (inject_Z n) end.

(** A required field annotated [str]. *)
Definition field_str (k : string) (d : pydict) : exn + string :=
  match dict_get k d with
  | Some (JStr s) => inr s
  | _ => inl ValidationError
  end.

(** A field annotated [str | None], with default [None]. *)
Definition field_opt_str (k : string) (d : pydict) : exn + option string :=
  match dict_get k d with
  | None | Some JNull => inr None
  | Some (JStr s) => inr (Some s)
  | Some _ => inl ValidationError
  end.

(** A field annotated [str], with a default. *)
Definition field_str_default (k dflt : string) (d : pydict) : exn + string :=
  match dict_get k d with
  | None => inr dflt
  | Some (JStr s) => inr s
  | Some _ => inl ValidationError
  end.

(** A field annotated [typing.Any], with default [None]. *)
Definition field_any (k : string) (d : pydict) : JSON :=
  match dict_get k d with None => JNull | Some v => v end.

Definition sum_bind {E A B} (x : E + A) (f : A -> E + B) : E + B :=
  match x with inl e => inl e | inr a => f a end.

Declare Scope sum_scope.
Delimit Scope sum_scope with sum.
Notation "x <- c1 ;; c2" := (sum_bind c1 (fun x => c2))
  (at level 100, c1 at next level, right associativity) : sum_scope.

(** [BenchmarkResult] called on the keyword arguments [d]: keys that
    are not fields are ignored. *)
Definition BenchmarkResult_validate (d : pydict) : exn + BenchmarkResult.t :=
  (pid <- field_str "problem_id" d ;;
   title <- field_str "problem_title" d ;;
   dif <- field_str "difficulty" d ;;
   plat <- field_str "platform" d ;;
   text <- field_str "text_response" d ;;
   c <- field_opt_str "code" d ;;
   jr <- field_str_default "judge_result" "Judging" d ;;
   inr (BenchmarkResult.Build pid title dif plat text c jr
          (field_any "response_meta" d)))%sum.

(** [BenchmarkResult] called on an [item] read from JSON and unpacked
    as keyword arguments: unpacking wants a mapping. *)
Definition BenchmarkResult_of_json (item : JSON) : exn + BenchmarkResult.t :=
  match item with
  | JObj d => BenchmarkResult_validate d
  | _ => inl TypeError
  end.

Definition BenchmarkResult_model_dump (r : BenchmarkResult.t) : pydict :=
  [ ("problem_id", JStr (BenchmarkResult.problem_id r));
    ("problem_title", JStr (BenchmarkResult.problem_title r));
    ("difficulty", JStr (BenchmarkResult.difficulty r));
    ("platform", JStr (BenchmarkResult.platform r));
    ("text_response", JStr (BenchmarkResult.text_response r));
    ("code", json_of_opt_str (BenchmarkResult.code r));
    ("judge_result", JStr (BenchmarkResult.judge_result r));
    ("response_meta", BenchmarkResult.response_meta r) ].

(** [ProblemTestState] called on the keyword arguments [d]. *)
Definition ProblemTestState_validate (d : pydict) : exn + ProblemTestState.t :=
  (pid <- field_str "problem_id" d ;;
   title <- field_str "problem_title" d ;;
   dif <- field_str "difficulty" d ;;
   plat <- field_str "platform" d ;;
   text <- field_opt_str "text_response" d ;;
   c <- field_opt_str "code" d ;;
   sid <- match dict_get "submission_id" d with
          | None | Some JNull => inr None
          | Some (JNum q) =>
              if Qeq_bool q (inject_Z (Qfloor q)) then inr (Some (Qfloor q))
              else inl ValidationError
          | Some _ => inl ValidationError
          end ;;
   jr <- field_str_default "judge_result" "Judging" d ;;
   inr (ProblemTestState.Build pid title dif plat text c sid jr
          (field_any "response_meta" d)))%sum.

Definition ProblemTestState_model_dump (s : ProblemTestState.t) : pydict :=
  [ ("problem_id", JStr (ProblemTestState.problem_id s));
    ("problem_title", JStr (ProblemTestState.problem_title s));
    ("difficulty", JStr (ProblemTestState.difficulty s));
    ("platform", JStr (ProblemTestState.platform s));
    ("text_response", json_of_opt_str (ProblemTestState.text_response s));
    ("code", json_of_opt_str (ProblemTestState.code s));
    ("submission_id", json_of_opt_int (ProblemTestState.submission_id s));
    ("judge_result", JStr (ProblemTestState.judge_result s));
    ("response_meta", ProblemTestState.response_meta s) ].

(** Modelled from the spec: the enumeration [SupportedLanguage] of module
    [judge] is not among the sources; the two members that the script
    names are the compiled variant and the interpreted variant. *)
Inductive SupportedLanguage : Type := CPP | PYPY.

(** ** The outside world *)

(** The HTTP requests that the script sends. *)
Inductive Request : Type :=
| GetIdentity                                  (* metadata server *)
| GetInputFile (bearer : string)
| GetOutputFile (bearer : string)
| PutUpload (url : string) (results : list pydict)
| PutStatus (bearer : string) (status : string)
| PostLog (bearer : string) (log : string).

(** What the script does to the outside, in order. *)
Inductive Event : Type :=
| EvClock                                      (* time.time() *)
| EvHttp (req : Request)
| EvSleep (seconds : Z)                        (* time.sleep *)
| EvJudgeEnter                                 (* with ... as judge *)
| EvJudgeExit
| EvSubmit (problem_id : string) (lang : SupportedLanguage) (code : string)
| EvGetResult (submission_id : Z).

(** A [requests.Response]: [json] is what [.json()] returns, [None] when
    it raises. *)
Record Response : Type := {
  status_code : Z;
  text : string;
  json : option JSON
}.

(** The oracles.  Each answers from the trace of events before the call.
    The functions of modules [jwt], [util] and [traceback] and the
    rendering of an exception are taken as given, too. *)
Record Env : Type := {
  clock : list Event -> float;       (* time.time() *)
  http : list Event -> Request -> exn + Response;
  judge_enter : list Event -> option exn;
  judge_submit :
    list Event -> string -> SupportedLanguage -> string -> exn + Z;
  judge_get_result : list Event -> Z -> exn + string;
  jwt_exp : string -> exn + expiry;  (* jwt.decode(t, ...)["exp"], or
                                        the exception that it raises *)
  extract_longest_cpp_code : string -> option string;
  extract_python_code : string -> option string;
  exn_str : exn -> string;           (* str(e) *)
  format_exc : exn -> string         (* traceback.format_exc() *)
}.

(** The state of the process: the global [token] and the trace. *)
Record World : Type := {
  token : option string;
  trace : list Event
}.

Definition initial_world : World := {| token := None; trace := [] |}.

(** ** The monad *)

(** [Diverge] stands for a loop that is still running when the fuel of
    the model is spent. *)
Inductive Outcome (A : Type) : Type :=
| Ok (a : A)
| Raise (e : exn)
| Diverge.
Arguments Ok {A} a.
Arguments Raise {A} e.
Arguments Diverge {A}.

Definition M (A : Type) : Type := World -> Outcome A * World.

Definition ret {A} (a : A) : M A := fun w => (Ok a, w).

Definition raise {A} (e : exn) : M A := fun w => (Raise e, w).

Definition diverge {A} : M A := fun w => (Diverge, w).

Definition bind {A B} (m : M A) (f : A -> M B) : M B :=
  fun w =>
    match m w with
    | (Ok a, w') => f a w'
    | (Raise e, w') => (Raise e, w')
    | (Diverge, w') => (Diverge, w')
    end.

(** [try: m  except Exception as e: h e] *)
Definition try_except {A} (m : M A) (h : exn -> M A) : M A :=
  fun w =>
    match m w with
    | (Raise e, w') => h e w'
    | r => r
    end.

Declare Scope monad_scope.
Delimit Scope monad_scope with monad.
Notation "x <- c1 ;; c2" := (bind c1 (fun x => c2))
  (at level 100, c1 at next level, right associativity) : monad_scope.
Notation "c1 ;; c2" := (bind c1 (fun _ => c2))
  (at level 100, right associativity) : monad_scope.
Local Open Scope monad_scope.

Definition lift {A} (x : exn + A) : M A :=
  match x with inl e => raise e | inr a => ret a end.

(** A [for] loop that builds a list, one element per element. *)
Fixpoint for_each {A B} (f : A -> M B) (l : list A) : M (list B) :=
  match l with
  | [] => ret []
  | x :: l' => y <- f x ;; ys <- for_each f l' ;; ret (y :: ys)
  end.

Definition emit (ev : Event) : M unit :=
  fun w => (Ok tt, {| token := token w; trace := trace w ++ [ev] |}).

Definition get_token : M (option string) := fun w => (Ok (token w), w).

Definition set_token (t : string) : M unit :=
  fun w => (Ok tt, {| token := Some t; trace := trace w |}).

(** ** The script *)

Section Script.

Variable env : Env.

(** [time.time()] *)
Definition time_time : M float :=
  fun w => (Ok (clock env (trace w)),
            {| token := token w; trace := trace w ++ [EvClock] |}).

(** [time.sleep(n)] *)
Definition time_sleep (n : Z) : M unit := emit (EvSleep n).

(** One call of [requests.get], [requests.put] or [requests.post]: the
    request goes out, then the answer comes or the call raises. *)
Definition requests (req : Request) : M Response :=
  fun w => (match http env (trace w) req with
            | inl e => Raise e
            | inr r => Ok r
            end,
            {| token := token w; trace := trace w ++ [EvHttp req] |}).

(** [response.raise_for_status()]: raises on a 4xx or 5xx status. *)
Definition raise_for_status (r : Response) : M unit :=
  if ((400 <=? status_code r) && (status_code r <? 600))%Z
  then raise (HTTPError (status_code r))
  else ret tt.

(** [response.json()] *)
Definition response_json (r : Response) : M JSON :=
  match json r with None => raise JSONDecodeError | Some j => ret j end.

(** The part of [get_oidc_token] after the test of the cache. *)
Definition fetch_oidc_token : M string :=
  response <- requests GetIdentity ;;
  raise_for_status response ;;
  set_token (text response) ;;
  ret (text response).

Definition get_oidc_token : M string :=
  cached <- get_token ;;
  match cached with
  | Some tok =>
      if truthy tok then
        match jwt_exp env tok with
        | inl e => raise e
        | inr exp =>
            now <- time_time ;;
            match py_gt exp (PrimFloat.add now 60) with
            | None => raise TypeError
            | Some true => ret tok
            | Some false => fetch_oidc_token
            end
        end
      else fetch_oidc_token
  | None => fetch_oidc_token
  end.

(** [for item in raw_data]: the elements of a list, the keys of a
    dict, the characters of a string; nothing else can be iterated. *)
Definition py_iter (j : JSON) : exn + list JSON :=
  match j with
  | JArr l => inr l
  | JObj kv => inr (map (fun p => JStr (fst p)) kv)
  | JStr s => inr (map (fun c => JStr (String c EmptyString))
                       (list_ascii_of_string s))
  | _ => inl TypeError
  end.

(** The body of the loop of [prepare_inputs]. *)
Definition prepare_item (item : JSON) : exn + ProblemTestState.t :=
  (item <- BenchmarkResult_of_json item ;;
   let item :=
     if negb (truthy_opt (BenchmarkResult.code item)) then
       BenchmarkResult.set_code
         (py_or (extract_longest_cpp_code env
                   (BenchmarkResult.text_response item))
                (extract_python_code env
                   (BenchmarkResult.text_response item)))
         item
     else item in
   ProblemTestState_validate (BenchmarkResult_model_dump item))%sum.

Fixpoint prepare_items (raw : list JSON) : exn + list ProblemTestState.t :=
  match raw with
  | [] => inr []
  | item :: raw' =>
      (s <- prepare_item item ;;
       data <- prepare_items raw' ;;
       inr (s :: data))%sum
  end.

Definition prepare_inputs : M (list ProblemTestState.t) :=
  tok <- get_oidc_token ;;
  response <- requests (GetInputFile tok) ;;
  raw_data <- response_json response ;;
  lift (raw <- py_iter raw_data ;; prepare_items raw)%sum.

Definition upload_output (results : list pydict) : M unit :=
  tok <- get_oidc_token ;;
  resp <- requests (GetOutputFile tok) ;;
  raise_for_status resp ;;
  upload_resp <- requests (PutUpload (text resp) results) ;;
  raise_for_status upload_resp.

Definition update_status (status : string) : M unit :=
  tok <- get_oidc_token ;;
  resp <- requests (PutStatus tok status) ;;
  raise_for_status resp.

Definition append_log (log : string) : M unit :=
  tok <- get_oidc_token ;;
  resp <- requests (PostLog tok log) ;;
  raise_for_status resp.

Definition detect_language (code : string) : SupportedLanguage :=
  if startswith (strip code) "#include" then CPP else PYPY.

(** [judge.submit(problem_id, language, code)] *)
Definition submit (pid : string) (lang : SupportedLanguage) (c : string)
  : M Z :=
  fun w => (match judge_submit env (trace w) pid lang c with
            | inl e => Raise e
            | inr sid => Ok sid
            end,
            {| token := token w; trace := trace w ++ [EvSubmit pid lang c] |}).

(** [judge.get_result(submission_id)] *)
Definition get_result (sid : Z) : M string :=
  fun w => (match judge_get_result env (trace w) sid with
            | inl e => Raise e
            | inr v => Ok v
            end,
            {| token := token w; trace := trace w ++ [EvGetResult sid] |}).

(** [with LightCPVerifierJudge(worker=1) as judge: body].  Entering may
    raise; the exit runs when the body returns and when it raises, and
    lets the exception of the body through. *)
Definition with_judge {A} (body : M A) : M A :=
  fun w =>
    match judge_enter env (trace w) with
    | Some e =>
        (Raise e, {| token := token w; trace := trace w ++ [EvJudgeEnter] |})
    | None =>
        match body {| token := token w; trace := trace w ++ [EvJudgeEnter] |}
        with
        | (Diverge, w') => (Diverge, w')
        | (r, w') =>
            (r, {| token := token w'; trace := trace w' ++ [EvJudgeExit] |})
        end
    end.

(** The body of the first loop of [main]. *)
Definition submit_item (item : ProblemTestState.t) : M ProblemTestState.t :=
  match ProblemTestState.code item with
  | Some c =>
      if truthy c then
        try_except
          (sid <- submit (ProblemTestState.problem_id item)
                         (detect_language c) c ;;
           ret (ProblemTestState.set_submission_id (Some sid) item))
          (fun e =>
             if is_ProblemNotFoundError e then
               ret (ProblemTestState.set_judge_result "Judge Failed" item)
             else
               ret (ProblemTestState.set_judge_result "Judge Failed" item))
      else ret (ProblemTestState.set_judge_result "Judge Failed" item)
  | None => ret (ProblemTestState.set_judge_result "Judge Failed" item)
  end.

(** The [while True] loop of [main]; it returns the last value that it
    stored into [item.judge_result]. *)
Fixpoint poll (fuel : nat) (sid : Z) : M string :=
  match fuel with
  | O => diverge
  | S fuel' =>
      r <- get_result sid ;;
      if negb (String.eqb r "Judging") then ret r
      else time_sleep 1 ;; poll fuel' sid
  end.

(** The body of the second loop of [main]. *)
Definition poll_item (fuel : nat) (item : ProblemTestState.t)
  : M ProblemTestState.t :=
  if negb (truthy_int (ProblemTestState.submission_id item)) then ret item
  else
    match ProblemTestState.submission_id item with
    | Some sid =>
        r <- poll fuel sid ;;
        ret (ProblemTestState.set_judge_result r item)
    | None => ret item
    end.

(** The element of the comprehension of [main]: the dump of a
    [BenchmarkResult] made from the dump of [item]. *)
Definition result_of_item (item : ProblemTestState.t) : exn + pydict :=
  (r <- BenchmarkResult_validate (ProblemTestState_model_dump item) ;;
   inr (BenchmarkResult_model_dump r))%sum.

Fixpoint build_results (items : list ProblemTestState.t)
  : exn + list pydict :=
  match items with
  | [] => inr []
  | item :: items' =>
      (r <- result_of_item item ;;
       rs <- build_results items' ;;
       inr (r :: rs))%sum
  end.

Definition main (fuel : nat) : M unit :=
  inputs <- prepare_inputs ;;
  update_status "running" ;;
  inputs <- with_judge
              (submitted <- for_each submit_item inputs ;;
               for_each (poll_item fuel) submitted) ;;
  results <- lift (build_results inputs) ;;
  upload_output results.

(** The text sent by the handler. *)
Definition error_log (e : exn) : string :=
  "Python error: " ++ exn_str env e ++ ", Traceback: " ++ format_exc env e.

(** The block under [if __name__ == "__main__"]. *)
Definition script (fuel : nat) : M unit :=
  try_except
    (main fuel ;; update_status "finished")
    (fun e => append_log (error_log e) ;; update_status "failed").

End Script.

(** ** Notions used to state the properties *)

(** Every character of [s] is white space. *)
Fixpoint all_space (s : string) : bool :=
  match s with
  | EmptyString => true
  | String c s' => isspace c && all_space s'
  end.

(** The requests to the identity endpoint in a trace: the network
    fetches of a token. *)
Definition is_fetch (ev : Event) : bool :=
  match ev with EvHttp GetIdentity => true | _ => false end.

Definition fetches (tr : list Event) : nat := length (List.filter is_fetch tr).

(** A status on which [raise_for_status] raises. *)
Definition error_status (r : Response) : bool :=
  ((400 <=? status_code r) && (status_code r <? 600))%Z.

(** The cache holds a non-empty token that passes the test of
    [get_oidc_token] at the time [now]: its decoded expiry is greater
    than the binary64 sum [now + 60]. *)
Definition cache_fresh (env : Env) (w : World) (now : float) : Prop :=
  exists tok exp,
    token w = Some tok /\ tok <> "" /\ jwt_exp env tok = inr exp /\
    py_gt exp (PrimFloat.add now 60) = Some true.

(** The cache holds no token, or the empty one, or one whose decoded
    expiry is a number that is not greater than the binary64 sum
    [now + 60]. *)
Definition cache_stale (env : Env) (w : World) (now : float) : Prop :=
  match token w with
  | None => True
  | Some tok =>
      tok = "" \/
      exists exp,
        jwt_exp env tok = inr exp /\
        py_gt exp (PrimFloat.add now 60) = Some false
  end.

(** The cache holds a non-empty token on which [jwt.decode(...)["exp"]]
    raises [e]: it cannot be decoded, or it has no [exp]. *)
Definition cache_undecodable (env : Env) (w : World) (e : exn) : Prop :=
  exists tok, token w = Some tok /\ tok <> "" /\ jwt_exp env tok = inl e.

(** The cache holds a non-empty token whose [exp] is not a number. *)
Definition cache_not_a_number (env : Env) (w : World) : Prop :=
  exists tok,
    token w = Some tok /\ tok <> "" /\ jwt_exp env tok = inr ExpOther.

(** What the test of the cache does to the outside: it reads the clock
    when there is a non-empty token to check. *)
Definition cache_test_events (w : World) : list Event :=
  match token w with
  | Some (String _ _) => [EvClock]
  | _ => []
  end.

(** ** Footprints

    [emits P m]: whatever [m] does to the outside is a sequence of events
    that all satisfy [P], added at the end of the trace. *)
Definition emits {A} (P : Event -> Prop) (m : M A) : Prop :=
  forall w r w',
    m w = (r, w') -> exists evs, trace w' = trace w ++ evs /\ Forall P evs.

(** The events of [get_oidc_token]. *)
Definition token_event (ev : Event) : bool :=
  match ev with
  | EvClock | EvHttp GetIdentity => true
  | _ => false
  end.

(** The events that a run of [main] can produce: among them no log
    entry, no status but "running", no submission of an empty program
    and no poll of the submission id 0. *)
Definition main_event (ev : Event) : bool :=
  match ev with
  | EvClock => true
  | EvHttp GetIdentity => true
  | EvHttp (GetInputFile _) => true
  | EvHttp (GetOutputFile _) => true
  | EvHttp (PutUpload _ _) => true
  | EvHttp (PutStatus _ s) => String.eqb s "running"
  | EvHttp (PostLog _ _) => false
  | EvSleep n => (n =? 1)%Z
  | EvJudgeEnter | EvJudgeExit => true
  | EvSubmit _ _ c => truthy c
  | EvGetResult sid => negb (sid =? 0)%Z
  end.

(** The statuses sent, the log entries sent and the batches uploaded, in
    the order of the trace. *)
Fixpoint statuses (tr : list Event) : list string :=
  match tr with
  | [] => []
  | EvHttp (PutStatus _ s) :: tr' => s :: statuses tr'
  | _ :: tr' => statuses tr'
  end.

Fixpoint logs (tr : list Event) : list string :=
  match tr with
  | [] => []
  | EvHttp (PostLog _ l) :: tr' => l :: logs tr'
  | _ :: tr' => logs tr'
  end.

Fixpoint uploads (tr : list Event) : list (list pydict) :=
  match tr with
  | [] => []
  | EvHttp (PutUpload _ rs) :: tr' => rs :: uploads tr'
  | _ :: tr' => uploads tr'
  end.

(** ** The data of a run *)

(** The fields that the script never assigns after the load. *)
Definition same_input_fields (a b : ProblemTestState.t) : Prop :=
  ProblemTestState.problem_id a = ProblemTestState.problem_id b /\
  ProblemTestState.problem_title a = ProblemTestState.problem_title b /\
  ProblemTestState.difficulty a = ProblemTestState.difficulty b /\
  ProblemTestState.platform a = ProblemTestState.platform b /\
  ProblemTestState.text_response a = ProblemTestState.text_response b /\
  ProblemTestState.code a = ProblemTestState.code b /\
  ProblemTestState.response_meta a = ProblemTestState.response_meta b.

(** What an item is when [prepare_inputs] has just made it. *)
Definition loaded (item : ProblemTestState.t) : Prop :=
  ProblemTestState.submission_id item = None /\
  exists t, ProblemTestState.text_response item = Some t.

(** A dict without the key [k]. *)
Definition drop_key (k : string) (d : pydict) : pydict :=
  List.filter (fun kv => negb (String.eqb (fst kv) k)) d.

(** Every field of the item except [submission_id]. *)
Definition output_record (item : ProblemTestState.t) : pydict :=
  drop_key "submission_id" (ProblemTestState_model_dump item).

(** The world when the judge has just been entered. *)
Definition entered (w : World) : World :=
  {| token := token w; trace := trace w ++ [EvJudgeEnter] |}.

(** The run that starts in [w0] gets through the load, the submissions
    and the polls: [inputs] is the batch as loaded, [submitted] the batch
    after the first loop of [main], [final] the batch after the second
    loop, [w3] the world between the two loops and [w4] the world after
    the second. *)
Definition judged (env : Env) (fuel : nat) (w0 : World)
    (inputs submitted final : list ProblemTestState.t) (w3 w4 : World)
  : Prop :=
  exists w1 w2,
    prepare_inputs env w0 = (Ok inputs, w1) /\
    update_status env "running" w1 = (Ok tt, w2) /\
    judge_enter env (trace w2) = None /\
    for_each (submit_item env) inputs (entered w2) = (Ok submitted, w3) /\
    for_each (poll_item env fuel) submitted w3 = (Ok final, w4).

(** The events of [k] polls that were answered "Judging", each followed
    by the sleep. *)
Fixpoint waiting (sid : Z) (k : nat) : list Event :=
  match k with
  | O => []
  | S k' => EvGetResult sid :: EvSleep 1 :: waiting sid k'
  end.

Definition is_submit (ev : Event) : bool :=
  match ev with EvSubmit _ _ _ => true | _ => false end.

Definition is_poll (ev : Event) : bool :=
  match ev with EvGetResult _ => true | _ => false end.

(** An event that is no status, no log entry and no upload. *)
Definition silent (ev : Event) : bool :=
  match ev with
  | EvHttp (PutStatus _ _) | EvHttp (PostLog _ _) | EvHttp (PutUpload _ _) =>
      false
  | _ => true
  end.

(** The world when the judge has just been left. *)
Definition exited (w : World) : World :=
  {| token := token w; trace := trace w ++ [EvJudgeExit] |}.

(** How the first loop of [main] changes an item: it marks it, or it
    stores a submission id; it marks it when there is no program. *)
Definition submitted_from (x y : ProblemTestState.t) : Prop :=
  (truthy_opt (ProblemTestState.code x) = false ->
   y = ProblemTestState.set_judge_result "Judge Failed" x) /\
  (y = ProblemTestState.set_judge_result "Judge Failed" x \/
   exists sid, y = ProblemTestState.set_submission_id (Some sid) x).

(** How the second loop of [main] changes an item: it stores a verdict,
    or it leaves the item alone; it leaves it alone when the submission
    id is false. *)
Definition polled_from (x y : ProblemTestState.t) : Prop :=
  (truthy_int (ProblemTestState.submission_id x) = false -> y = x) /\
  (y = x \/ exists v, y = ProblemTestState.set_judge_result v x).

(** The keys of an output record. *)
Definition output_keys : list string :=
  [ "problem_id"; "problem_title"; "difficulty"; "platform";
    "text_response"; "code"; "judge_result"; "response_meta" ].

(** ** The script, block by block *)

(** Following the words of the specification: a run status is "reported
    exactly once at the start and exactly once at the end of a run": the
    statuses sent are "running", then "finished" or "failed". *)
Definition spec_status_reports (sent : list string) : Prop :=
  sent = ["running"; "finished"] \/ sent = ["running"; "failed"].

(** Following the words of the specification: after a failure, "a single
    log entry is appended ... then run status is set to failed". *)
Definition spec_failure_reported (tr : list Event) : Prop :=
  length (logs tr) = 1%nat /\ List.last (statuses tr) "" = "failed".

(** The block under [try] in the script. *)
Definition try_block (env : Env) (fuel : nat) : M unit :=
  main env fuel ;; update_status env "finished".

(** The block under [except] in the script. *)
Definition except_block (env : Env) (e : exn) : M unit :=
  append_log env (error_log env e) ;; update_status env "failed".

(** ** Sample environments

    Used to run the script on concrete inputs. *)

Definition ok_response (body : string) (j : option JSON) : Response :=
  {| status_code := 200; text := body; json := j |}.

Definition error_response (status : Z) : Response :=
  {| status_code := status; text := "error"; json := None |}.

(** Tokens are named after their expiry; every other string is not a
    token. *)
Definition sample_jwt_exp (tok : string) : exn + expiry :=
  if String.eqb tok "token-4600" then inr (ExpInt 4600)
  else if String.eqb tok "token-1030" then inr (ExpInt 1030)
  else inl InvalidTokenError.

Definition sample_exn_str (e : exn) : string :=
  match e with
  | HTTPError _ => "HTTPError"
  | RequestException m => m
  | JSONDecodeError => "JSONDecodeError"
  | TypeError => "TypeError"
  | ValidationError => "ValidationError"
  | InvalidTokenError => "InvalidTokenError"
  | ProblemNotFoundError m => m
  | JudgeError m => m
  end.

(** An environment whose clock stands at 1000, built from its HTTP
    services and its judge. *)
Definition sample_env
    (http : list Event -> Request -> exn + Response)
    (judge_submit :
       list Event -> string -> SupportedLanguage -> string -> exn + Z)
    (judge_get_result : list Event -> Z -> exn + string) : Env :=
  {| clock := fun _ => 1000%float;
     http := http;
     judge_enter := fun _ => None;
     judge_submit := judge_submit;
     judge_get_result := judge_get_result;
     jwt_exp := sample_jwt_exp;
     extract_longest_cpp_code := fun _ => None;
     extract_python_code := fun _ => None;
     exn_str := sample_exn_str;
     format_exc := fun e => ("raised " ++ sample_exn_str e)%string |}.

(** A judge that knows every problem but the one named "unknown",
    numbers every submission 7 and has judged it at the second poll. *)
Definition sample_submit
    (tr : list Event) (pid : string) (lang : SupportedLanguage)
    (c : string) : exn + Z :=
  if String.eqb pid "unknown" then inl (ProblemNotFoundError "unknown")
  else inr 7%Z.

(** A judge that numbers its submissions from 0. *)
Definition zero_submit
    (tr : list Event) (pid : string) (lang : SupportedLanguage)
    (c : string) : exn + Z :=
  inr 0%Z.

Definition count_polls (tr : list Event) : nat :=
  length (List.filter
            (fun ev => match ev with EvGetResult _ => true | _ => false end)
            tr).

Definition sample_get_result (tr : list Event) (sid : Z) : exn + string :=
  if (count_polls tr <? 1)%nat then inr "Judging" else inr "Accepted".

(** An input record, with or without [code]. *)
Definition sample_record (pid : string) (c : option string) : JSON :=
  JObj ([ ("problem_id", JStr pid);
          ("problem_title", JStr "Title");
          ("difficulty", JStr "easy");
          ("platform", JStr "codeforces");
          ("text_response", JStr "An answer.") ]
        ++ match c with Some c => [("code", JStr c)] | None => [] end).

(** The batch of three: a C++ program for a known problem, no program,
    and a program for an unknown problem. *)
Definition sample_batch : JSON :=
  JArr [ sample_record "A" (Some "#include <cstdio>");
         sample_record "B" None;
         sample_record "unknown" (Some "print(1)") ].

(** The item that [prepare_inputs] makes of [sample_record pid c]. *)
Definition sample_item (pid : string) (c : option string)
  : ProblemTestState.t :=
  ProblemTestState.Build pid "Title" "easy" "codeforces" (Some "An answer.")
    c None "Judging" JNull.

Definition sample_items : list ProblemTestState.t :=
  [ sample_item "A" (Some "#include <cstdio>");
    sample_item "B" None;
    sample_item "unknown" (Some "print(1)") ].

(** HTTP services that answer every request with status 200; the
    identity endpoint hands out a token that expires at 4600 and the
    input file is [input]. *)
Definition sample_http (input : JSON) (tr : list Event) (req : Request)
  : exn + Response :=
  match req with
  | GetIdentity => inr (ok_response "token-4600" None)
  | GetInputFile _ => inr (ok_response "" (Some input))
  | GetOutputFile _ => inr (ok_response "https://upload" None)
  | _ => inr (ok_response "" None)
  end.

(** An identity endpoint that is down: every request there is answered
    with status 500. *)
Definition identity_down_http (tr : list Event) (req : Request)
  : exn + Response :=
  match req with
  | GetIdentity => inr (error_response 500)
  | _ => inr (ok_response "" None)
  end.

(** An identity endpoint that fails on the first call only. *)
Definition identity_flaky_http (tr : list Event) (req : Request)
  : exn + Response :=
  match req with
  | GetIdentity =>
      match tr with
      | [] => inr (error_response 500)
      | _ => inr (ok_response "token-4600" None)
      end
  | _ => inr (ok_response "" None)
  end.

(** HTTP services that answer the request for the input file with
    status 503 and the JSON body [{}], and every other request with
    status 200. *)
Definition input_error_http (tr : list Event) (req : Request)
  : exn + Response :=
  match req with
  | GetIdentity => inr (ok_response "token-4600" None)
  | GetInputFile _ =>
      inr {| status_code := 503; text := "{}"; json := Some (JObj []) |}
  | GetOutputFile _ => inr (ok_response "https://upload" None)
  | _ => inr (ok_response "" None)
  end.

(** A judge that has a verdict at the first poll. *)
Definition prompt_get_result (tr : list Event) (sid : Z) : exn + string :=
  inr "Accepted".

(** ** Notions used to state the further properties *)

(** The item that the loop of [prepare_inputs] makes of a validated
    record: the program is the one of the record when there is one, or
    else what the extractors find in the answer, C++ first. *)
Definition item_of_record (env : Env) (r : BenchmarkResult.t)
  : ProblemTestState.t :=
  ProblemTestState.Build
    (BenchmarkResult.problem_id r) (BenchmarkResult.problem_title r)
    (BenchmarkResult.difficulty r) (BenchmarkResult.platform r)
    (Some (BenchmarkResult.text_response r))
    (if truthy_opt (BenchmarkResult.code r) then BenchmarkResult.code r
     else py_or (extract_longest_cpp_code env (BenchmarkResult.text_response r))
                (extract_python_code env (BenchmarkResult.text_response r)))
    None (BenchmarkResult.judge_result r) (BenchmarkResult.response_meta r).

(** A record that [BenchmarkResult] accepts. *)
Definition valid_record (j : JSON) : Prop :=
  exists r, BenchmarkResult_of_json j = inr r.

(** The item has an answer: its [text_response] is not [None]. *)
Definition has_text_response (item : ProblemTestState.t) : bool :=
  match ProblemTestState.text_response item with
  | Some _ => true
  | None => false
  end.

(** The call of [submit] that the first loop of [main] makes for an item:
    none when the item has no program. *)
Definition submission_of (item : ProblemTestState.t) : list Event :=
  match ProblemTestState.code item with
  | Some (String a c) =>
      [EvSubmit (ProblemTestState.problem_id item)
                (detect_language (String a c)) (String a c)]
  | _ => []
  end.

(** The calls of [submit] for a batch, in the order of the batch. *)
Definition submissions (items : list ProblemTestState.t) : list Event :=
  flat_map submission_of items.

(** The events of the second loop of [main]: a poll of a submission id
    other than 0 and the sleep of one second. *)
Definition poll_event (ev : Event) : bool :=
  match ev with
  | EvGetResult sid => negb (sid =? 0)%Z
  | EvSleep n => (n =? 1)%Z
  | _ => false
  end.

(** The [with] block of [main]. *)
Definition judge_session (env : Env) (fuel : nat)
    (inputs : list ProblemTestState.t) : M (list ProblemTestState.t) :=
  with_judge env
    (submitted <- for_each (submit_item env) inputs ;;
     for_each (poll_item env fuel) submitted).


(** No character of [s] is white space. *)
Fixpoint none_space (s : string) : bool :=
  match s with
  | EmptyString => true
  | String c s' => negb (isspace c) && none_space s'
  end.

(** The fetch that an empty cache still has to make. *)
Definition budget (w : World) : nat :=
  match token w with None => 1%nat | Some _ => 0%nat end.

(** [thrifty_from tok0 pre m]: run from a world that satisfies [pre], [m]
    leaves the token [tok0] in the cache and has sent a request to the
    identity endpoint only if the cache was empty, and then one. *)
Definition thrifty_from (tok0 : string) (pre : World -> Prop) {A} (m : M A)
  : Prop :=
  forall w r w',
    pre w -> m w = (r, w') ->
    token w' = Some tok0 /\
    (fetches (trace w') + budget w' = fetches (trace w) + budget w)%nat.

Definition cached (tok0 : string) (w : World) : Prop := token w = Some tok0.

Definition empty_or_cached (tok0 : string) (w : World) : Prop :=
  token w = None \/ token w = Some tok0.

(** The exact value of a binary64 number, when it is finite. *)
Definition Q_of_float (f : float) : option Q :=
  match Prim2SF f with
  | S754_zero _ => Some 0%Q
  | S754_finite negative m e =>
      let v := if negative then Z.neg m else Z.pos m in
      Some (if (0 <=? e)%Z then inject_Z (v * 2 ^ e)
            else (v # Z.to_pos (2 ^ (- e)))%Q)
  | _ => None
  end.

(** Following the words of the specification: "the cached token's
    decoded expiry is more than 60 seconds after the current time", the
    expiry being an integer and the sum exact. *)
Definition spec_expiry_ahead (env : Env) (w : World) (now : float) : bool :=
  match token w with
  | Some tok =>
      match jwt_exp env tok, Q_of_float now with
      | inr (ExpInt n), Some q => negb (Qle_bool (inject_Z n) (q + 60)%Q)
      | _, _ => false
      end
  | None => false
  end.

(** Following the words of the specification: the cached token is
    returned "without any network fetch" whenever its expiry is that far
    ahead; "otherwise" a fresh token is fetched. *)
Definition spec_token_cache (env : Env) (w : World) : Prop :=
  let run := get_oidc_token env w in
  if spec_expiry_ahead env w (clock env (trace w)) then
    (exists tok, token w = Some tok /\ fst run = Ok tok) /\
    fetches (trace (snd run)) = fetches (trace w)
  else
    fetches (trace (snd run)) = S (fetches (trace w)).

(** An environment whose clock stands a fraction of a microsecond before
    2147483618, the nearest binary64 number to 2147483617.9999998, and
    whose tokens expire at 2147483678. *)
Definition boundary_env : Env :=
  {| clock := fun _ => 0x1.ffffff87fffffp+30%float;
     http := fun _ _ => inr {| status_code := 200;
                               text := "token-2147483678";
                               json := None |};
     judge_enter := fun _ => None;
     judge_submit := fun _ _ _ _ => inr 1%Z;
     judge_get_result := fun _ _ => inr "Accepted";
     jwt_exp := fun tok =>
       if String.eqb tok "token-2147483678" then inr (ExpInt 2147483678)
       else inl InvalidTokenError;
     extract_longest_cpp_code := fun _ => None;
     extract_python_code := fun _ => None;
     exn_str := fun _ => "error";
     format_exc := fun _ => "traceback" |}.

(** The run that starts in [w] loads its inputs and then has the token
    for its first call of [update_status]. *)
Definition loaded_with_token (env : Env) (w : World) : Prop :=
  exists inputs w1 tok w2,
    prepare_inputs env w = (Ok inputs, w1) /\
    get_oidc_token env w1 = (Ok tok, w2).

(** HTTP services as [sample_http], but the request that reports the
    status "finished" is answered with status 500. *)
Definition finished_error_http (input : JSON) (tr : list Event)
    (req : Request) : exn + Response :=
  match req with
  | PutStatus _ s =>
      if String.eqb s "finished" then inr (error_response 500)
      else inr (ok_response "" None)
  | _ => sample_http input tr req
  end.

(** The run that starts in [w] gets through [main] and then has the
    token for the call of [update_status("finished")]. *)
Definition reaches_finished (env : Env) (fuel : nat) (w : World) : Prop :=
  exists w1 tok w2,
    main env fuel w = (Ok tt, w1) /\
    get_oidc_token env w1 = (Ok tok, w2).

(** The [try] block of the run that starts in [w] raises, the handler's
    call of [append_log] returns, and the handler then has the token for
    the call of [update_status("failed")]. *)
Definition reaches_failed (env : Env) (fuel : nat) (w : World) : Prop :=
  exists e w1 w2 tok w3,
    try_block env fuel w = (Raise e, w1) /\
    append_log env (error_log env e) w1 = (Ok tt, w2) /\
    get_oidc_token env w2 = (Ok tok, w3).

(** The status [s] is sent once when [cond] holds, and not at all when
    it does not. *)
Definition status_sent (s : string) (cond : Prop) (sent : list string)
  : Prop :=
  (cond /\ sent = [s]) \/ (~ cond /\ sent = []).






(** An input record that carries a verdict already. *)
Definition verdict_record (pid c v : string) : JSON :=
  JObj [ ("problem_id", JStr pid);
         ("problem_title", JStr "Title");
         ("difficulty", JStr "easy");
         ("platform", JStr "codeforces");
         ("text_response", JStr "An answer.");
         ("code", JStr c);
         ("judge_result", JStr v) ].

(** * Properties *)

(** ** Strings *)



Lemma lstrip_head_nonspace (s : string) (c : ascii) (rest : string) :
  lstrip s = String c rest -> isspace c = false.
Proof.
  induction s as [|a s IH]; simpl; [discriminate|].
  destruct (isspace a) eqn:Ha; [auto|].
  intros [= -> ->]. exact Ha.
Qed.

Lemma prefix_rstrip (p s : string) :
  rstrip p = p -> String.prefix p s = true -> String.prefix p (rstrip s) = true.
Proof.
  revert p. induction s as [|c s IH]; intros p; destruct p as [|a p]; simpl;
    try (intros; (reflexivity || discriminate)).
  - intros _ _. now destruct (rstrip s); [destruct (isspace c)|].
  - intros Hp. destruct (ascii_dec a c) as [->|]; [|discriminate].
    intros Hps. destruct (rstrip p) as [|b r] eqn:Hr.
    + destruct (isspace c) eqn:Hc; [discriminate|].
      injection Hp as <-.
      destruct (rstrip s); simpl; destruct (ascii_dec c c); congruence.
    + injection Hp as Hp. specialize (IH p).
      rewrite Hr in IH. specialize (IH Hp Hps). rewrite <- Hp in IH.
      destruct (rstrip s) as [|b' r'] eqn:Hs; [discriminate|].
      simpl. destruct (ascii_dec c c); [|congruence]. rewrite <- Hp. exact IH.
Qed.

Lemma rstrip_prefix (s : string) : String.prefix (rstrip s) s = true.
Proof.
  induction s as [|c s IH]; simpl; auto.
  destruct (rstrip s) as [|b r].
  - destruct (isspace c); simpl; auto.
    destruct (ascii_dec c c); [|congruence]. now destruct s.
  - simpl. destruct (ascii_dec c c); [|congruence]. exact IH.
Qed.

Lemma prefix_trans (p q s : string) :
  String.prefix p q = true -> String.prefix q s = true ->
  String.prefix p s = true.
Proof.
  revert q s. induction p as [|a p IH]; intros [|b q] [|c s]; simpl; auto;
    try discriminate.
  destruct (ascii_dec a b) as [->|]; [|discriminate].
  destruct (ascii_dec b c) as [->|]; [|discriminate]. eauto.
Qed.


(** The test of [detect_language] only looks past the leading white
    space: stripping the end cannot remove a part of [#include]. *)
Lemma startswith_strip_include (code : string) :
  startswith (strip code) "#include" = startswith (lstrip code) "#include".
Proof.
  unfold startswith, strip.
  destruct (String.prefix "#include" (lstrip code)) eqn:H.
  - apply prefix_rstrip; [reflexivity|exact H].
  - destruct (String.prefix "#include" (rstrip (lstrip code))) eqn:H'; auto.
    rewrite <- H. symmetry.
    eapply prefix_trans; [exact H'|apply rstrip_prefix].
Qed.

(** ** C9: the language classifier *)

(** The test is made on the stripped text, and [#include] is looked for
    as a plain prefix. *)
Example detect_language_samples :
  detect_language "#include <cstdio>" = CPP /\
  detect_language "  #include <cstdio>" = CPP /\
  detect_language "#includes" = CPP /\
  detect_language "# include <cstdio>" = PYPY /\
  detect_language "import sys" = PYPY /\
  detect_language "" = PYPY.
Proof. repeat split. Qed.





(** ** The credential cache *)

Lemma truthy_nonempty (s : string) : truthy s = true <-> s <> "".
Proof. destruct s; simpl; split; congruence. Qed.

Lemma fetches_app (tr1 tr2 : list Event) :
  fetches (tr1 ++ tr2) = (fetches tr1 + fetches tr2)%nat.
Proof. unfold fetches. now rewrite List.filter_app, length_app. Qed.

Lemma fetch_oidc_token_run (env : Env) (w : World) :
  fetch_oidc_token env w =
  match http env (trace w) GetIdentity with
  | inl e =>
      (Raise e,
       {| token := token w; trace := trace w ++ [EvHttp GetIdentity] |})
  | inr resp =>
      if error_status resp then
        (Raise (HTTPError (status_code resp)),
         {| token := token w; trace := trace w ++ [EvHttp GetIdentity] |})
      else
        (Ok (text resp),
         {| token := Some (text resp);
            trace := trace w ++ [EvHttp GetIdentity] |})
  end.
Proof.
  unfold fetch_oidc_token, bind, requests, raise_for_status, error_status.
  destruct (http env (trace w) GetIdentity) as [e|resp]; [reflexivity|].
  now destruct ((400 <=? status_code resp)%Z && (status_code resp <? 600)%Z).
Qed.

Lemma get_oidc_token_fresh (env : Env) (w : World) (tok : string)
      (exp : expiry) :
  token w = Some tok -> tok <> "" -> jwt_exp env tok = inr exp ->
  py_gt exp (PrimFloat.add (clock env (trace w)) 60) = Some true ->
  get_oidc_token env w =
  (Ok tok, {| token := Some tok; trace := trace w ++ [EvClock] |}).
Proof.
  intros Htok Hne Hexp Hgt.
  unfold get_oidc_token, bind, get_token, time_time. rewrite Htok.
  apply truthy_nonempty in Hne. rewrite Hne, Hexp.
  simpl. rewrite Hgt, ?Htok. reflexivity.
Qed.

Lemma get_oidc_token_stale (env : Env) (w : World) :
  cache_stale env w (clock env (trace w)) ->
  get_oidc_token env w =
  fetch_oidc_token env
    {| token := token w; trace := trace w ++ cache_test_events w |}.
Proof.
  unfold cache_stale, cache_test_events, get_oidc_token, bind, get_token.
  destruct w as [[[|c tok]|] tr]; simpl.
  - intros _. now rewrite app_nil_r.
  - intros [H|(exp & Hexp & Hle)]; [discriminate|].
    rewrite Hexp. unfold time_time. simpl. now rewrite Hle.
  - intros _. now rewrite app_nil_r.
Qed.

(** A cached token that cannot be decoded, or that has no expiry: the
    call raises before it reads the clock or sends anything. *)
Lemma get_oidc_token_undecodable (env : Env) (w : World) (tok : string)
      (e : exn) :
  token w = Some tok -> tok <> "" -> jwt_exp env tok = inl e ->
  get_oidc_token env w = (Raise e, w).
Proof.
  intros Htok Hne Hexp. unfold get_oidc_token, bind, get_token.
  rewrite Htok. apply truthy_nonempty in Hne. now rewrite Hne, Hexp.
Qed.

(** A cached token whose expiry is not a number: the comparison raises,
    after the clock was read. *)
Lemma get_oidc_token_not_a_number (env : Env) (w : World) (tok : string) :
  token w = Some tok -> tok <> "" -> jwt_exp env tok = inr ExpOther ->
  get_oidc_token env w =
  (Raise TypeError, {| token := token w; trace := trace w ++ [EvClock] |}).
Proof.
  destruct w as [t tr]. simpl. intros -> Hne Hexp.
  unfold get_oidc_token, bind, get_token, time_time. simpl.
  apply truthy_nonempty in Hne. now rewrite Hne, Hexp.
Qed.

(** C8, as stated, fails twice.  A non-empty cached token that cannot be
    decoded has no expiry that is 60 seconds ahead, yet nothing is
    fetched: the call raises.  And with the clock a fraction of a
    microsecond before 2147483618, a token that expires at 2147483678 is
    more than 60 seconds from its expiry, yet it is fetched again: the
    sum [time.time() + 60] is rounded up to 2147483678. *)
Lemma C8_cache_test_counterexample :
  (let env :=
     sample_env (sample_http (JArr [])) sample_submit sample_get_result in
   let w := {| token := Some "garbage"; trace := [] |} in
   get_oidc_token env w = (Raise InvalidTokenError, w) /\
   ~ spec_token_cache env w) /\
  (let w := {| token := Some "token-2147483678"; trace := [] |} in
   spec_expiry_ahead boundary_env w (clock boundary_env []) = true /\
   fetches (trace (snd (get_oidc_token boundary_env w))) = 1%nat /\
   ~ spec_token_cache boundary_env w).
Proof.
  split.
  - split; [reflexivity|]. intros H. vm_compute in H. discriminate H.
  - split; [reflexivity|]. split; [reflexivity|].
    intros [_ H]. vm_compute in H. discriminate H.
Qed.

(** C8, amended: the test of the cache is the one that the code makes,
    with the sum [time.time() + 60] rounded as binary64 addition rounds
    it.  With a non-empty cached token whose decoded expiry is greater
    than that sum, [get_oidc_token] returns it and sends nothing to the
    identity endpoint.  With no cached token, or the empty one, or one
    whose expiry is a number not greater than that sum, it sends exactly
    one request there and, when the answer is not an error, caches and
    returns its text.  So two calls in a row, the first of which fetches
    a token that passes the test at the second, send exactly one
    request.  With a cached token that cannot be decoded, or whose expiry
    is not a number, it raises and neither fetches nor changes the cache.
    There is no other case. *)
Theorem C8_get_oidc_token_caches (env : Env) (w : World) :
  let now := clock env (trace w) in
  let tr := trace w ++ cache_test_events w in
  (cache_fresh env w now ->
   exists tok w',
     token w = Some tok /\
     get_oidc_token env w = (Ok tok, w') /\
     token w' = Some tok /\
     fetches (trace w') = fetches (trace w)) /\
  (cache_stale env w now ->
   get_oidc_token env w =
   match http env tr GetIdentity with
   | inl e =>
       (Raise e, {| token := token w; trace := tr ++ [EvHttp GetIdentity] |})
   | inr resp =>
       if error_status resp then
         (Raise (HTTPError (status_code resp)),
          {| token := token w; trace := tr ++ [EvHttp GetIdentity] |})
       else
         (Ok (text resp),
          {| token := Some (text resp);
             trace := tr ++ [EvHttp GetIdentity] |})
   end) /\
  (cache_stale env w now ->
   forall resp exp,
     http env tr GetIdentity = inr resp ->
     error_status resp = false ->
     text resp <> "" ->
     jwt_exp env (text resp) = inr exp ->
     py_gt exp (PrimFloat.add (clock env (tr ++ [EvHttp GetIdentity])) 60)
     = Some true ->
     exists w1 w2,
       get_oidc_token env w = (Ok (text resp), w1) /\
       get_oidc_token env w1 = (Ok (text resp), w2) /\
       fetches (trace w2) = S (fetches (trace w))) /\
  (forall e, cache_undecodable env w e ->
             get_oidc_token env w = (Raise e, w)) /\
  (cache_not_a_number env w ->
   get_oidc_token env w =
   (Raise TypeError, {| token := token w; trace := trace w ++ [EvClock] |})) /\
  (cache_fresh env w now \/ cache_stale env w now \/
   (exists e, cache_undecodable env w e) \/ cache_not_a_number env w).
Proof.
  intros now tr. split; [|split; [|split; [|split; [|split]]]].
  - intros (tok & exp & Htok & Hne & Hexp & Hlt).
    exists tok, {| token := Some tok; trace := trace w ++ [EvClock] |}.
    split; [exact Htok|]. split; [now apply get_oidc_token_fresh with exp|].
    split; [reflexivity|]. simpl. rewrite fetches_app.
    change (fetches [EvClock]) with 0%nat. lia.
  - intros Hstale. rewrite get_oidc_token_stale by exact Hstale.
    now rewrite fetch_oidc_token_run.
  - intros Hstale resp exp Hresp Hstatus Hne Hexp Hlt.
    set (w1 := {| token := Some (text resp);
                  trace := tr ++ [EvHttp GetIdentity] |}).
    exists w1, {| token := Some (text resp); trace := trace w1 ++ [EvClock] |}.
    split; [|split].
    + rewrite get_oidc_token_stale by exact Hstale.
      rewrite fetch_oidc_token_run. simpl. fold tr.
      now rewrite Hresp, Hstatus.
    + now apply get_oidc_token_fresh with exp.
    + simpl. unfold tr. rewrite !fetches_app.
      assert (fetches (cache_test_events w) = 0%nat) as ->.
      { unfold cache_test_events. now destruct (token w) as [[|]|]. }
      change (fetches [EvHttp GetIdentity]) with 1%nat.
      change (fetches [EvClock]) with 0%nat. lia.
  - intros e (tok & Htok & Hne & Hexp).
    now apply get_oidc_token_undecodable with tok.
  - intros (tok & Htok & Hne & Hexp).
    now apply get_oidc_token_not_a_number with tok.
  - unfold cache_fresh, cache_stale, cache_undecodable, cache_not_a_number.
    destruct (token w) as [tok|]; [|auto].
    destruct (string_dec tok "") as [->|Hne]; [auto|].
    destruct (jwt_exp env tok) as [e|exp] eqn:Hexp; [eauto 10|].
    destruct (py_gt exp (PrimFloat.add now 60)) as [[|]|] eqn:Hgt.
    + left. eauto 10.
    + right. left. eauto 10.
    + destruct exp; try discriminate Hgt. eauto 10.
Qed.

(** On a sample: a cached token that expires at 4600 read at time 1000,
    and two calls in a row from an empty cache. *)
Lemma C8_get_oidc_token_caches_witness :
  let env := sample_env (sample_http (JArr [])) sample_submit sample_get_result in
  let cached := {| token := Some "token-4600"; trace := [] |} in
  (exists tok w',
     token cached = Some tok /\
     get_oidc_token env cached = (Ok tok, w') /\
     token w' = Some tok /\
     fetches (trace w') = fetches (trace cached)) /\
  (exists w1 w2,
     get_oidc_token env initial_world = (Ok "token-4600", w1) /\
     get_oidc_token env w1 = (Ok "token-4600", w2) /\
     fetches (trace w2) = 1%nat).
Proof.
  intros env cached. split.
  - apply (proj1 (C8_get_oidc_token_caches env cached)).
    exists "token-4600", (ExpInt 4600).
    repeat split; try reflexivity. discriminate.
  - destruct (C8_get_oidc_token_caches env initial_world) as (_ & _ & H & _).
    apply (H I (ok_response "token-4600" None) (ExpInt 4600));
      try reflexivity. discriminate.
Defined.

(** ** The monad and footprints *)

Lemma bind_Ok {A B} (m : M A) (f : A -> M B) (w w1 : World) (a : A) :
  m w = (Ok a, w1) -> bind m f w = f a w1.
Proof. unfold bind. now intros ->. Qed.

Lemma bind_inv {A B} (m : M A) (f : A -> M B) (w w' : World)
      (r : Outcome B) :
  bind m f w = (r, w') ->
  (exists a w1, m w = (Ok a, w1) /\ f a w1 = (r, w')) \/
  (exists e, m w = (Raise e, w') /\ r = Raise e) \/
  (m w = (Diverge, w') /\ r = Diverge).
Proof.
  unfold bind. destruct (m w) as [[a|e|] w1]; intros H.
  - left. eauto.
  - right. left. exists e. now inversion H.
  - right. right. now inversion H.
Qed.

Lemma emits_weaken {A} (P Q : Event -> Prop) (m : M A) :
  (forall ev, P ev -> Q ev) -> emits P m -> emits Q m.
Proof.
  intros HPQ Hm w r w' Hrun.
  destruct (Hm w r w' Hrun) as (evs & Htr & Hevs).
  exists evs. split; [exact Htr|]. eapply Forall_impl; eauto.
Qed.

Lemma emits_ret {A} (P : Event -> Prop) (a : A) : emits P (ret a).
Proof.
  intros w r w' [= <- <-]. exists []. now rewrite app_nil_r.
Qed.

Lemma emits_raise {A} (P : Event -> Prop) (e : exn) : emits P (@raise A e).
Proof.
  intros w r w' [= <- <-]. exists []. now rewrite app_nil_r.
Qed.

Lemma emits_diverge {A} (P : Event -> Prop) : emits P (@diverge A).
Proof.
  intros w r w' [= <- <-]. exists []. now rewrite app_nil_r.
Qed.

Lemma emits_lift {A} (P : Event -> Prop) (x : exn + A) : emits P (lift x).
Proof. destruct x; [apply emits_raise|apply emits_ret]. Qed.

Lemma emits_bind {A B} (P : Event -> Prop) (m : M A) (f : A -> M B) :
  emits P m -> (forall a, emits P (f a)) -> emits P (bind m f).
Proof.
  intros Hm Hf w r w' Hrun.
  apply bind_inv in Hrun as [(a & w1 & Hm1 & Hf1)|[(e & Hm1 & _)|[Hm1 _]]].
  - destruct (Hm _ _ _ Hm1) as (evs1 & Htr1 & Hevs1).
    destruct (Hf a _ _ _ Hf1) as (evs2 & Htr2 & Hevs2).
    exists (evs1 ++ evs2). rewrite Htr2, Htr1, app_assoc.
    split; [reflexivity|]. now apply Forall_app.
  - exact (Hm _ _ _ Hm1).
  - exact (Hm _ _ _ Hm1).
Qed.

Lemma emits_try_except {A} (P : Event -> Prop) (m : M A) (h : exn -> M A) :
  emits P m -> (forall e, emits P (h e)) -> emits P (try_except m h).
Proof.
  intros Hm Hh w r w' Hrun. unfold try_except in Hrun.
  destruct (m w) as [[a|e|] w1] eqn:Hm1.
  - inversion Hrun; subst. exact (Hm _ _ _ Hm1).
  - destruct (Hm _ _ _ Hm1) as (evs1 & Htr1 & Hevs1).
    destruct (Hh e _ _ _ Hrun) as (evs2 & Htr2 & Hevs2).
    exists (evs1 ++ evs2). rewrite Htr2, Htr1, app_assoc.
    split; [reflexivity|]. now apply Forall_app.
  - inversion Hrun; subst. exact (Hm _ _ _ Hm1).
Qed.

Lemma emits_for_each {A B} (P : Event -> Prop) (f : A -> M B) (l : list A) :
  (forall x, emits P (f x)) -> emits P (for_each f l).
Proof.
  intros Hf. induction l as [|x l IH]; simpl.
  - apply emits_ret.
  - apply emits_bind; [apply Hf|]. intros y.
    apply emits_bind; [exact IH|]. intros ys. apply emits_ret.
Qed.

Lemma emits_one {A} (P : Event -> Prop) (m : M A) (ev : Event) :
  P ev ->
  (forall w, exists r,
       m w = (r, {| token := token w; trace := trace w ++ [ev] |})) ->
  emits P m.
Proof.
  intros HP Hm w r w' Hrun. destruct (Hm w) as (r0 & Hr0).
  rewrite Hr0 in Hrun. inversion Hrun; subst. exists [ev]. simpl. auto.
Qed.

Lemma emits_requests (env : Env) (P : Event -> Prop) (req : Request) :
  P (EvHttp req) -> emits P (requests env req).
Proof. intros HP. apply emits_one with (EvHttp req); eauto. Qed.

Lemma emits_raise_for_status (P : Event -> Prop) (r : Response) :
  emits P (raise_for_status r).
Proof.
  unfold raise_for_status.
  destruct (_ && _); [apply emits_raise|apply emits_ret].
Qed.

Lemma emits_set_token (P : Event -> Prop) (t : string) :
  emits P (set_token t).
Proof.
  intros w r w' [= <- <-]. exists []. simpl. now rewrite app_nil_r.
Qed.

(** Apply the rules for the monad, as far as they go. *)
Ltac emits_step :=
  repeat first
    [ apply emits_ret | apply emits_raise | apply emits_diverge
    | apply emits_lift | apply emits_raise_for_status
    | apply emits_set_token
    | apply emits_bind; [|intros ?]
    | apply emits_requests ].

Lemma emits_fetch_oidc_token (env : Env) :
  emits (fun ev => token_event ev = true) (fetch_oidc_token env).
Proof. unfold fetch_oidc_token. emits_step. reflexivity. Qed.

Lemma emits_get_oidc_token (env : Env) :
  emits (fun ev => token_event ev = true) (get_oidc_token env).
Proof.
  unfold get_oidc_token. apply emits_bind.
  - intros w r w' [= <- <-]. exists []. now rewrite app_nil_r.
  - intros [tok|]; [|apply emits_fetch_oidc_token].
    destruct (truthy tok); [|apply emits_fetch_oidc_token].
    destruct (jwt_exp env tok); [apply emits_raise|].
    apply emits_bind.
    + apply emits_one with EvClock; [reflexivity|]. unfold time_time. eauto.
    + intros now. destruct (py_gt _ _) as [[|]|].
      * apply emits_ret.
      * apply emits_fetch_oidc_token.
      * apply emits_raise.
Qed.

Lemma emits_token (env : Env) (P : Event -> Prop) :
  P EvClock -> P (EvHttp GetIdentity) -> emits P (get_oidc_token env).
Proof.
  intros H1 H2. eapply emits_weaken; [|apply emits_get_oidc_token].
  intros [|[]| | | | |]; simpl; congruence.
Qed.

Lemma emits_response_json (P : Event -> Prop) (r : Response) :
  emits P (response_json r).
Proof. unfold response_json. destruct (json r); emits_step. Qed.

Lemma emits_prepare_inputs (env : Env) (P : Event -> Prop) :
  P EvClock -> P (EvHttp GetIdentity) ->
  (forall tok, P (EvHttp (GetInputFile tok))) ->
  emits P (prepare_inputs env).
Proof.
  intros H1 H2 H3. unfold prepare_inputs.
  apply emits_bind; [now apply emits_token|]. intros tok.
  apply emits_bind; [now apply emits_requests|]. intros resp.
  apply emits_bind; [apply emits_response_json|]. intros j. emits_step.
Qed.

Lemma emits_update_status (env : Env) (P : Event -> Prop) (s : string) :
  P EvClock -> P (EvHttp GetIdentity) ->
  (forall tok, P (EvHttp (PutStatus tok s))) ->
  emits P (update_status env s).
Proof.
  intros H1 H2 H3. unfold update_status.
  apply emits_bind; [now apply emits_token|]. intros tok. emits_step.
  apply H3.
Qed.

Lemma emits_append_log (env : Env) (P : Event -> Prop) (l : string) :
  P EvClock -> P (EvHttp GetIdentity) ->
  (forall tok, P (EvHttp (PostLog tok l))) ->
  emits P (append_log env l).
Proof.
  intros H1 H2 H3. unfold append_log.
  apply emits_bind; [now apply emits_token|]. intros tok. emits_step.
  apply H3.
Qed.

Lemma emits_upload_output (env : Env) (P : Event -> Prop)
      (results : list pydict) :
  P EvClock -> P (EvHttp GetIdentity) ->
  (forall tok, P (EvHttp (GetOutputFile tok))) ->
  (forall url, P (EvHttp (PutUpload url results))) ->
  emits P (upload_output env results).
Proof.
  intros H1 H2 H3 H4. unfold upload_output.
  apply emits_bind; [now apply emits_token|]. intros tok. emits_step.
  - apply H3.
  - apply H4.
Qed.

Lemma emits_submit_item (env : Env) (P : Event -> Prop)
      (item : ProblemTestState.t) :
  (forall pid lang c, truthy c = true -> P (EvSubmit pid lang c)) ->
  emits P (submit_item env item).
Proof.
  intros HP. unfold submit_item.
  destruct (ProblemTestState.code item) as [c|]; [|apply emits_ret].
  destruct (truthy c) eqn:Hc; [|apply emits_ret].
  apply emits_try_except.
  - apply emits_bind; [|intros sid; apply emits_ret].
    eapply emits_one with (ev := EvSubmit _ _ c); [now apply HP|].
    unfold submit. eauto.
  - intros e. destruct (is_ProblemNotFoundError e); apply emits_ret.
Qed.

Lemma emits_poll (env : Env) (P : Event -> Prop) (fuel : nat) (sid : Z) :
  P (EvGetResult sid) -> P (EvSleep 1) -> emits P (poll env fuel sid).
Proof.
  intros HP1 HP2. induction fuel as [|fuel IH]; simpl;
    [apply emits_diverge|].
  apply emits_bind.
  - apply emits_one with (EvGetResult sid); [exact HP1|].
    unfold get_result. eauto.
  - intros r. destruct (negb _); [apply emits_ret|].
    apply emits_bind; [|intros _; exact IH].
    apply emits_one with (EvSleep 1); [exact HP2|].
    unfold time_sleep, emit. eauto.
Qed.

Lemma emits_poll_item (env : Env) (P : Event -> Prop) (fuel : nat)
      (item : ProblemTestState.t) :
  (forall sid, sid <> 0%Z -> P (EvGetResult sid)) -> P (EvSleep 1) ->
  emits P (poll_item env fuel item).
Proof.
  intros HP1 HP2. unfold poll_item.
  destruct (ProblemTestState.submission_id item) as [sid|]; simpl;
    [|apply emits_ret].
  destruct (sid =? 0)%Z eqn:Hsid; simpl; [apply emits_ret|].
  apply emits_bind; [|intros r; apply emits_ret].
  apply emits_poll; [|exact HP2]. now apply HP1, Z.eqb_neq.
Qed.

Lemma emits_with_judge {A} (env : Env) (P : Event -> Prop) (body : M A) :
  P EvJudgeEnter -> P EvJudgeExit -> emits P body ->
  emits P (with_judge env body).
Proof.
  intros H1 H2 Hbody w r w' Hrun. unfold with_judge in Hrun.
  destruct (judge_enter env (trace w)) as [e|].
  - inversion Hrun; subst. exists [EvJudgeEnter]. simpl. auto.
  - destruct (body _) as [r1 w1] eqn:Hb.
    destruct (Hbody _ _ _ Hb) as (evs & Htr & Hevs). simpl in Htr.
    destruct r1; inversion Hrun; subst; simpl.
    + exists ([EvJudgeEnter] ++ evs ++ [EvJudgeExit]).
      rewrite Htr, <- !app_assoc. split; [reflexivity|].
      repeat (apply Forall_app; split); auto.
    + exists ([EvJudgeEnter] ++ evs ++ [EvJudgeExit]).
      rewrite Htr, <- !app_assoc. split; [reflexivity|].
      repeat (apply Forall_app; split); auto.
    + exists ([EvJudgeEnter] ++ evs).
      rewrite Htr, <- !app_assoc. split; [reflexivity|].
      repeat (apply Forall_app; split); auto.
Qed.

(** The two loops of [main], inside the [with] block. *)
Lemma emits_loops (env : Env) (P : Event -> Prop) (fuel : nat)
      (inputs : list ProblemTestState.t) :
  P EvJudgeEnter -> P EvJudgeExit ->
  (forall pid lang c, truthy c = true -> P (EvSubmit pid lang c)) ->
  (forall sid, sid <> 0%Z -> P (EvGetResult sid)) -> P (EvSleep 1) ->
  emits P (with_judge env
             (submitted <- for_each (submit_item env) inputs ;;
              for_each (poll_item env fuel) submitted)).
Proof.
  intros H1 H2 H3 H4 H5. apply emits_with_judge; [exact H1|exact H2|].
  apply emits_bind.
  - apply emits_for_each. intros item. now apply emits_submit_item.
  - intros submitted. apply emits_for_each. intros item.
    now apply emits_poll_item.
Qed.

Lemma main_event_poll (sid : Z) :
  sid <> 0%Z -> main_event (EvGetResult sid) = true.
Proof. intros H. simpl. now apply negb_true_iff, Z.eqb_neq. Qed.

(** Every event of a run of [main] is one that [main_event] admits. *)
Lemma emits_main (env : Env) (fuel : nat) :
  emits (fun ev => main_event ev = true) (main env fuel).
Proof.
  unfold main.
  apply emits_bind; [now apply emits_prepare_inputs|]. intros inputs.
  apply emits_bind; [now apply emits_update_status|]. intros _.
  apply emits_bind.
  { apply emits_loops; auto using main_event_poll. }
  intros final. apply emits_bind; [apply emits_lift|]. intros results.
  now apply emits_upload_output.
Qed.

(** ** Loops *)

Lemma for_each_Forall2 {A B} (R : A -> B -> Prop) (f : A -> M B)
      (l : list A) (w w' : World) (ys : list B) :
  (forall x v y v', f x v = (Ok y, v') -> R x y) ->
  for_each f l w = (Ok ys, w') -> Forall2 R l ys.
Proof.
  intros Hf. revert w ys. induction l as [|x l IH]; simpl; intros w ys Hrun.
  - inversion Hrun. constructor.
  - apply bind_inv in Hrun as [(y & w1 & Hx & Hrun)|[(e & _ & [=])|[_ [=]]]].
    apply bind_inv in Hrun as [(ys' & w2 & Hl & Hrun)|[(e & _ & [=])|[_ [=]]]].
    inversion Hrun; subst. constructor; eauto.
Qed.

Lemma for_each_total {A B} (f : A -> M B) (l : list A) (w : World) :
  (forall x v, exists y v', f x v = (Ok y, v')) ->
  exists ys w', for_each f l w = (Ok ys, w').
Proof.
  intros Hf. revert w. induction l as [|x l IH]; simpl; intros w.
  - unfold ret. eauto.
  - destruct (Hf x w) as (y & w1 & Hx).
    destruct (IH w1) as (ys & w2 & Hl).
    exists (y :: ys), w2.
    rewrite (bind_Ok _ _ _ _ _ Hx), (bind_Ok _ _ _ _ _ Hl). reflexivity.
Qed.

(** The element of index [i] is handled in the world that the loop over
    the elements before it leaves, and the loop then goes on with the
    elements after it. *)
Lemma for_each_lookup {A B} (f : A -> M B) (l : list A) (w w' : World)
      (ys : list B) (i : nat) (x : A) :
  for_each f l w = (Ok ys, w') -> l !! i = Some x ->
  exists wi wi' y,
    for_each f (take i l) w = (Ok (take i ys), wi) /\
    f x wi = (Ok y, wi') /\
    ys !! i = Some y /\
    for_each f (drop (S i) l) wi' = (Ok (drop (S i) ys), w').
Proof.
  revert w ys i. induction l as [|x0 l IH]; intros w ys i Hrun Hi;
    [discriminate|].
  simpl in Hrun.
  apply bind_inv in Hrun as [(y & w1 & Hx & Hrun)|[(e & _ & [=])|[_ [=]]]].
  apply bind_inv in Hrun as [(ys' & w2 & Hl & Hrun)|[(e & _ & [=])|[_ [=]]]].
  inversion Hrun; subst. destruct i as [|i]; simpl in Hi.
  - injection Hi as ->. exists w, w1, y. simpl. rewrite !drop_0. auto.
  - destruct (IH _ _ _ Hl Hi) as (wi & wi' & y' & Htake & Hf & Hy & Hdrop).
    exists wi, wi', y'. simpl.
    rewrite (bind_Ok _ _ _ _ _ Hx), (bind_Ok _ _ _ _ _ Htake). auto.
Qed.

(** ** The two loops of [main], one item at a time *)

Lemma submit_item_run (env : Env) (item : ProblemTestState.t) (w : World) :
  submit_item env item w =
  match ProblemTestState.code item with
  | Some (String a c') =>
      let c := String a c' in
      let pid := ProblemTestState.problem_id item in
      let w' := {| token := token w;
                   trace := trace w ++ [EvSubmit pid (detect_language c) c] |}
      in
      match judge_submit env (trace w) pid (detect_language c) c with
      | inr sid => (Ok (ProblemTestState.set_submission_id (Some sid) item), w')
      | inl e => (Ok (ProblemTestState.set_judge_result "Judge Failed" item), w')
      end
  | _ => (Ok (ProblemTestState.set_judge_result "Judge Failed" item), w)
  end.
Proof.
  unfold submit_item.
  destruct (ProblemTestState.code item) as [[|a c']|]; try reflexivity.
  simpl. unfold try_except, bind, submit.
  destruct (judge_submit env _ _ _ _) as [e|sid]; [|reflexivity].
  now destruct (is_ProblemNotFoundError e).
Qed.

Lemma submit_item_total (env : Env) (item : ProblemTestState.t) (w : World) :
  exists item' w', submit_item env item w = (Ok item', w').
Proof.
  rewrite submit_item_run.
  destruct (ProblemTestState.code item) as [[|a c']|]; simpl; eauto.
  destruct (judge_submit env _ _ _ _); eauto.
Qed.

Lemma poll_item_skip (env : Env) (fuel : nat) (item : ProblemTestState.t)
      (w : World) :
  truthy_int (ProblemTestState.submission_id item) = false ->
  poll_item env fuel item w = (Ok item, w).
Proof. unfold poll_item. now intros ->. Qed.

Lemma poll_item_poll (env : Env) (fuel : nat) (item : ProblemTestState.t)
      (sid : Z) :
  ProblemTestState.submission_id item = Some sid -> sid <> 0%Z ->
  poll_item env fuel item =
  (r <- poll env fuel sid ;; ret (ProblemTestState.set_judge_result r item)).
Proof.
  intros Hsid Hne. unfold poll_item. rewrite Hsid. simpl.
  apply Z.eqb_neq in Hne. now rewrite Hne.
Qed.

(** The loop [while True]: when the judge answers "Judging" to the first
    [k] polls and [v] to the next one, the loop makes these [k + 1] calls,
    sleeps one second after each of the first [k], and ends with [v]. *)
Lemma poll_run (env : Env) (sid : Z) (v : string) (k fuel : nat) (w : World) :
  (forall j, (j < k)%nat ->
     judge_get_result env (trace w ++ waiting sid j) sid = inr "Judging") ->
  judge_get_result env (trace w ++ waiting sid k) sid = inr v ->
  v <> "Judging" ->
  (k < fuel)%nat ->
  poll env fuel sid w =
  (Ok v, {| token := token w;
            trace := trace w ++ waiting sid k ++ [EvGetResult sid] |}).
Proof.
  revert fuel w. induction k as [|k IH]; intros fuel w Hwait Hv Hne Hfuel;
    (destruct fuel as [|fuel]; [lia|]); simpl;
    unfold bind, get_result.
  - simpl in Hv. rewrite app_nil_r in Hv. rewrite Hv.
    apply String.eqb_neq in Hne. now rewrite Hne.
  - pose proof (Hwait 0%nat ltac:(lia)) as H0. simpl in H0.
    rewrite app_nil_r in H0. rewrite H0. simpl.
    unfold time_sleep, emit. simpl.
    rewrite IH with (fuel := fuel); simpl; try lia; try assumption.
    + now rewrite <- !app_assoc.
    + intros j Hj. specialize (Hwait (S j) ltac:(lia)). simpl in Hwait.
      now rewrite <- !app_assoc.
    + simpl in Hv. now rewrite <- !app_assoc.
Qed.

(** ** The load *)

Lemma ProblemTestState_of_BenchmarkResult (r : BenchmarkResult.t) :
  ProblemTestState_validate (BenchmarkResult_model_dump r) =
  inr (ProblemTestState.Build
         (BenchmarkResult.problem_id r) (BenchmarkResult.problem_title r)
         (BenchmarkResult.difficulty r) (BenchmarkResult.platform r)
         (Some (BenchmarkResult.text_response r)) (BenchmarkResult.code r)
         None (BenchmarkResult.judge_result r)
         (BenchmarkResult.response_meta r)).
Proof. destruct r as [? ? ? ? ? [c|] ? ?]; reflexivity. Qed.

Lemma prepare_item_loaded (env : Env) (j : JSON) (item : ProblemTestState.t) :
  prepare_item env j = inr item -> loaded item.
Proof.
  unfold prepare_item, sum_bind.
  destruct (BenchmarkResult_of_json j) as [e|r]; [discriminate|].
  rewrite ProblemTestState_of_BenchmarkResult. intros [= <-].
  split; simpl; [reflexivity|].
  destruct (negb _); simpl; eauto.
Qed.

Lemma prepare_items_loaded (env : Env) (raw : list JSON)
      (items : list ProblemTestState.t) :
  prepare_items env raw = inr items -> Forall loaded items.
Proof.
  revert items. induction raw as [|j raw IH]; simpl; intros items.
  - intros [= <-]. constructor.
  - unfold sum_bind. destruct (prepare_item env j) as [e|item] eqn:Hj;
      [discriminate|].
    destruct (prepare_items env raw) as [e|items'] eqn:Hraw; [discriminate|].
    intros [= <-]. constructor; [eapply prepare_item_loaded; eauto|auto].
Qed.

(** What [prepare_inputs] returns was made from the JSON value of the
    answer to the request for the input file. *)
Lemma prepare_inputs_inv (env : Env) (w0 w1 : World)
      (inputs : list ProblemTestState.t) :
  prepare_inputs env w0 = (Ok inputs, w1) ->
  exists raw, prepare_items env raw = inr inputs.
Proof.
  unfold prepare_inputs. intros Hrun.
  apply bind_inv in Hrun as [(tok & v1 & _ & Hrun)|[(e & _ & [=])|[_ [=]]]].
  apply bind_inv in Hrun as [(resp & v2 & _ & Hrun)|[(e & _ & [=])|[_ [=]]]].
  apply bind_inv in Hrun as [(j & v3 & _ & Hrun)|[(e & _ & [=])|[_ [=]]]].
  unfold sum_bind in Hrun. destruct (py_iter j) as [e|raw]; [discriminate|].
  exists raw. destruct (prepare_items env raw); [discriminate|].
  inversion Hrun. reflexivity.
Qed.

Lemma prepare_inputs_loaded (env : Env) (w0 w1 : World)
      (inputs : list ProblemTestState.t) :
  prepare_inputs env w0 = (Ok inputs, w1) -> Forall loaded inputs.
Proof.
  intros H. apply prepare_inputs_inv in H as (raw & Hraw).
  eapply prepare_items_loaded; eauto.
Qed.

(** ** C5: a failed submission concerns its item only *)



(** ** What a trace shows *)

Lemma statuses_app (tr1 tr2 : list Event) :
  statuses (tr1 ++ tr2) = statuses tr1 ++ statuses tr2.
Proof.
  induction tr1 as [|[|[]| | | | |] tr1 IH]; simpl; auto. now rewrite IH.
Qed.

Lemma logs_app (tr1 tr2 : list Event) :
  logs (tr1 ++ tr2) = logs tr1 ++ logs tr2.
Proof.
  induction tr1 as [|[|[]| | | | |] tr1 IH]; simpl; auto. now rewrite IH.
Qed.

Lemma uploads_app (tr1 tr2 : list Event) :
  uploads (tr1 ++ tr2) = uploads tr1 ++ uploads tr2.
Proof.
  induction tr1 as [|[|[]| | | | |] tr1 IH]; simpl; auto. now rewrite IH.
Qed.

Lemma silent_trace (evs : list Event) :
  Forall (fun ev => silent ev = true) evs ->
  statuses evs = [] /\ logs evs = [] /\ uploads evs = [].
Proof.
  induction 1 as [|ev evs Hev _ IH]; [auto|].
  destruct ev as [|[]| | | | |]; simpl in *; auto; discriminate.
Qed.

Lemma token_event_silent (ev : Event) :
  token_event ev = true -> silent ev = true.
Proof. destruct ev as [|[]| | | | |]; simpl; congruence. Qed.

Lemma token_trace (evs : list Event) :
  Forall (fun ev => token_event ev = true) evs ->
  statuses evs = [] /\ logs evs = [] /\ uploads evs = [].
Proof.
  intros H. apply silent_trace. eapply Forall_impl; [exact H|].
  apply token_event_silent.
Qed.

(** A run of [main] sends no log entry and no status but "running". *)
Lemma main_trace (evs : list Event) :
  Forall (fun ev => main_event ev = true) evs ->
  logs evs = [] /\ Forall (fun s => s = "running") (statuses evs).
Proof.
  induction 1 as [|ev evs Hev _ [IH1 IH2]]; [auto|].
  destruct ev as [|[]| | | | |]; simpl in *; auto; try discriminate.
  split; [exact IH1|]. constructor; [|exact IH2]. now apply String.eqb_eq.
Qed.

(** ** The calls to the API, step by step *)

Lemma bind_split {A B} (P : Event -> Prop) (m : M A) (f : A -> M B)
      (w w' : World) (r : Outcome B) :
  emits P m -> bind m f w = (r, w') ->
  (exists a w1 evs,
      m w = (Ok a, w1) /\ trace w1 = trace w ++ evs /\ Forall P evs /\
      f a w1 = (r, w')) \/
  (exists evs,
      trace w' = trace w ++ evs /\ Forall P evs /\ forall b, r <> Ok b).
Proof.
  intros Hm Hrun.
  apply bind_inv in Hrun as [(a & w1 & Hm1 & Hf1)|[(e & Hm1 & ->)|[Hm1 ->]]].
  - destruct (Hm _ _ _ Hm1) as (evs & Htr & Hevs). left. eauto 10.
  - destruct (Hm _ _ _ Hm1) as (evs & Htr & Hevs). right.
    exists evs. now repeat split.
  - destruct (Hm _ _ _ Hm1) as (evs & Htr & Hevs). right.
    exists evs. now repeat split.
Qed.

(** The shape shared by [update_status] and [append_log]: the token, then
    one request, then the check of the status of the answer. *)
Lemma api_call_inv (env : Env) (mk : string -> Request) (w w' : World)
      (r : Outcome unit) :
  (tok <- get_oidc_token env ;;
   resp <- requests env (mk tok) ;;
   raise_for_status resp) w = (r, w') ->
  exists pre,
    Forall (fun ev => token_event ev = true) pre /\
    ((trace w' = trace w ++ pre /\ r <> Ok tt) \/
     (exists tok, trace w' = trace w ++ pre ++ [EvHttp (mk tok)])).
Proof.
  intros Hrun.
  apply (bind_split _ _ _ _ _ _ (emits_get_oidc_token env)) in Hrun
    as [(tok & w1 & pre & _ & Htr1 & Hpre & Hrun)|(pre & Htr & Hpre & Hr)].
  - exists pre. split; [exact Hpre|]. right. exists tok.
    unfold bind, requests in Hrun.
    destruct (http env (trace w1) (mk tok)) as [e|resp].
    + inversion Hrun; subst. simpl. now rewrite Htr1, <- app_assoc.
    + unfold raise_for_status in Hrun.
      destruct (_ && _); inversion Hrun; subst; simpl;
        now rewrite Htr1, <- app_assoc.
  - exists pre. split; [exact Hpre|]. left. split; [exact Htr|apply Hr].
Qed.

Lemma update_status_inv (env : Env) (s : string) (w w' : World)
      (r : Outcome unit) :
  update_status env s w = (r, w') ->
  exists evs,
    trace w' = trace w ++ evs /\ logs evs = [] /\ uploads evs = [] /\
    ((statuses evs = [] /\ r <> Ok tt) \/
     (statuses evs = [s] /\
      exists pre tok, evs = pre ++ [EvHttp (PutStatus tok s)])).
Proof.
  intros Hrun. apply (api_call_inv env (fun tok => PutStatus tok s)) in Hrun
    as (pre & Hpre & [[Htr Hr]|(tok & Htr)]);
    destruct (token_trace _ Hpre) as (Hs & Hl & Hu).
  - exists pre. auto 10.
  - exists (pre ++ [EvHttp (PutStatus tok s)]).
    rewrite statuses_app, logs_app, uploads_app, Hs, Hl, Hu. simpl.
    repeat split; auto. right. eauto.
Qed.

Lemma append_log_inv (env : Env) (l : string) (w w' : World)
      (r : Outcome unit) :
  append_log env l w = (r, w') ->
  exists evs,
    trace w' = trace w ++ evs /\ statuses evs = [] /\ uploads evs = [] /\
    ((logs evs = [] /\ r <> Ok tt) \/ logs evs = [l]).
Proof.
  intros Hrun. apply (api_call_inv env (fun tok => PostLog tok l)) in Hrun
    as (pre & Hpre & [[Htr Hr]|(tok & Htr)]);
    destruct (token_trace _ Hpre) as (Hs & Hl & Hu).
  - exists pre. auto 10.
  - exists (pre ++ [EvHttp (PostLog tok l)]).
    rewrite statuses_app, logs_app, uploads_app, Hs, Hl, Hu. simpl.
    repeat split; auto.
Qed.

Lemma upload_output_inv (env : Env) (results : list pydict) (w w' : World)
      (r : Outcome unit) :
  upload_output env results w = (r, w') ->
  exists evs,
    trace w' = trace w ++ evs /\ statuses evs = [] /\ logs evs = [] /\
    ((uploads evs = [] /\ r <> Ok tt) \/ uploads evs = [results]).
Proof.
  unfold upload_output. intros Hrun.
  apply (bind_split _ _ _ _ _ _ (emits_get_oidc_token env)) in Hrun
    as [(tok & w1 & pre & _ & Htr1 & Hpre & Hrun)|(pre & Htr & Hpre & Hr)];
    destruct (token_trace _ Hpre) as (Hs & Hl & Hu).
  - unfold bind, requests in Hrun.
    destruct (http env (trace w1) (GetOutputFile tok)) as [e|resp].
    { inversion Hrun; subst. exists (pre ++ [EvHttp (GetOutputFile tok)]).
      simpl. rewrite Htr1, <- app_assoc, statuses_app, logs_app, uploads_app,
        Hs, Hl, Hu. simpl. repeat split; auto; try (left; now split). }
    unfold raise_for_status at 1 in Hrun. simpl in Hrun.
    destruct ((400 <=? status_code resp)%Z && (status_code resp <? 600)%Z).
    { inversion Hrun; subst. exists (pre ++ [EvHttp (GetOutputFile tok)]).
      simpl. rewrite Htr1, <- app_assoc, statuses_app, logs_app, uploads_app,
        Hs, Hl, Hu. simpl. repeat split; auto; try (left; now split). }
    simpl in Hrun.
    exists (pre ++ [EvHttp (GetOutputFile tok);
                    EvHttp (PutUpload (text resp) results)]).
    rewrite statuses_app, logs_app, uploads_app, Hs, Hl, Hu. simpl.
    repeat split; auto.
    destruct (http env _ (PutUpload _ _)) as [e|resp'].
    + inversion Hrun; subst. simpl. now rewrite Htr1, <- !app_assoc.
    + unfold raise_for_status in Hrun.
      destruct (_ && _); inversion Hrun; subst; simpl;
        now rewrite Htr1, <- !app_assoc.
  - exists pre. repeat split; auto; try (left; split; [exact Hu|apply Hr]).
Qed.

(** ** A run of [main], phase by phase *)

Lemma with_judge_Ok {A} (env : Env) (body : M A) (w w' : World) (a : A) :
  with_judge env body w = (Ok a, w') ->
  judge_enter env (trace w) = None /\
  exists w1, body (entered w) = (Ok a, w1) /\ w' = exited w1.
Proof.
  unfold with_judge. destruct (judge_enter env (trace w)); [discriminate|].
  fold (entered w). destruct (body (entered w)) as [[a'|e|] w1];
    intros [= <- <-]. split; [reflexivity|]. now exists w1.
Qed.

Lemma lift_inv {A} (x : exn + A) (w w' : World) (r : Outcome A) :
  lift x w = (r, w') ->
  w' = w /\ match x with inl e => r = Raise e | inr a => r = Ok a end.
Proof. destruct x; intros [= <- <-]; auto. Qed.

Lemma silent_loops (env : Env) (fuel : nat)
      (inputs : list ProblemTestState.t) :
  emits (fun ev => silent ev = true)
    (with_judge env
       (submitted <- for_each (submit_item env) inputs ;;
        for_each (poll_item env fuel) submitted)).
Proof. now apply emits_loops. Qed.

(** What a run of [main] sends: no log entry; the status "running" once,
    unless it fails before; one upload at most, and then of the records
    built from the batch as the polls have left it. *)
Lemma main_inv (env : Env) (fuel : nat) (w0 w' : World) (r : Outcome unit) :
  main env fuel w0 = (r, w') ->
  exists evs,
    trace w' = trace w0 ++ evs /\ logs evs = [] /\
    ((statuses evs = [] /\ uploads evs = [] /\ r <> Ok tt) \/
     (statuses evs = ["running"] /\
      ((uploads evs = [] /\ r <> Ok tt) \/
       exists inputs submitted final w3 w4 results,
         judged env fuel w0 inputs submitted final w3 w4 /\
         build_results final = inr results /\
         uploads evs = [results]))).
Proof.
  unfold main. intros Hrun.
  assert (Hload : emits (fun ev => silent ev = true) (prepare_inputs env))
    by now apply emits_prepare_inputs.
  apply (bind_split _ _ _ _ _ _ Hload) in Hrun
    as [(inputs & w1 & evs1 & Hin & Htr1 & Hevs1 & Hrun)
       |(evs & Htr & Hevs & Hr)].
  2:{ destruct (silent_trace _ Hevs) as (Hs & Hl & Hu).
      exists evs. repeat split; auto. }
  destruct (silent_trace _ Hevs1) as (Hs1 & Hl1 & Hu1).
  apply bind_inv in Hrun
    as [([] & w2 & Hst & Hrun)|[(e & Hst & ->)|[Hst ->]]].
  2,3: apply update_status_inv in Hst as (evs2 & Htr2 & Hl2 & Hu2 & Hs2);
       exists (evs1 ++ evs2);
       rewrite Htr2, Htr1, <- app_assoc, statuses_app, logs_app, uploads_app,
         Hs1, Hl1, Hu1, Hl2, Hu2; simpl;
       (split; [reflexivity|]); (split; [reflexivity|]);
       (destruct Hs2 as [[-> _]|[-> _]];
        [left; repeat split; discriminate
        |right; split; [reflexivity|left; split; [reflexivity|discriminate]]]).
  pose proof Hst as Hst'.
  apply update_status_inv in Hst'
    as (evs2 & Htr2 & Hl2 & Hu2 & [[_ Hne]|[Hs2 _]]); [congruence|].
  apply (bind_split _ _ _ _ _ _ (silent_loops env fuel inputs)) in Hrun
    as [(final & w4' & evs3 & Hloops & Htr3 & Hevs3 & Hrun)
       |(evs3 & Htr3 & Hevs3 & Hr)].
  2:{ destruct (silent_trace _ Hevs3) as (Hs3 & Hl3 & Hu3).
      exists (evs1 ++ evs2 ++ evs3).
      rewrite Htr3, Htr2, Htr1, <- !app_assoc, !statuses_app, !logs_app,
        !uploads_app, Hs1, Hl1, Hu1, Hs2, Hl2, Hu2, Hs3, Hl3, Hu3. simpl.
      split; [reflexivity|]. split; [reflexivity|]. right.
      split; [reflexivity|]. left. split; [reflexivity|apply Hr]. }
  destruct (silent_trace _ Hevs3) as (Hs3 & Hl3 & Hu3).
  apply with_judge_Ok in Hloops as (Henter & w4 & Hbody & ->).
  apply bind_inv in Hbody
    as [(submitted & w3 & Hsub & Hpoll)|[(e & _ & [=])|[_ [=]]]].
  apply bind_inv in Hrun
    as [(results & w5 & Hres & Hrun)|[(e & Hres & ->)|[Hres ->]]];
    apply lift_inv in Hres as [-> Hres].
  - destruct (build_results final) as [e|results'] eqn:Hbuild;
      [discriminate|]. injection Hres as ->.
    apply upload_output_inv in Hrun
      as (evs4 & Htr4 & Hs4 & Hl4 & Hu4).
    exists (evs1 ++ evs2 ++ evs3 ++ evs4).
    rewrite Htr4, Htr3, Htr2, Htr1, <- !app_assoc, !statuses_app, !logs_app,
      !uploads_app, Hs1, Hl1, Hu1, Hs2, Hl2, Hu2, Hs3, Hl3, Hu3, Hs4, Hl4.
    simpl. split; [reflexivity|]. split; [reflexivity|]. right.
    split; [reflexivity|]. destruct Hu4 as [[Hu4 Hr]|Hu4]; [left; auto|].
    right. exists inputs, submitted, final, w3, w4, results'.
    split; [|auto]. exists w1, w2. auto.
  - exists (evs1 ++ evs2 ++ evs3).
    rewrite Htr3, Htr2, Htr1, <- !app_assoc, !statuses_app, !logs_app,
      !uploads_app, Hs1, Hl1, Hu1, Hs2, Hl2, Hu2, Hs3, Hl3, Hu3. simpl.
    split; [reflexivity|]. split; [reflexivity|]. right.
    split; [reflexivity|]. left. split; [reflexivity|discriminate].
  - destruct (build_results final); discriminate.
Qed.

(** ** The batch through a run *)

Lemma submit_item_rel (env : Env) (x y : ProblemTestState.t) (v v' : World) :
  submit_item env x v = (Ok y, v') -> submitted_from x y.
Proof.
  rewrite submit_item_run. unfold submitted_from.
  destruct (ProblemTestState.code x) as [[|a c']|]; simpl.
  - intros [= <- <-]. auto.
  - destruct (judge_submit env _ _ _ _); intros [= <- <-];
      (split; [discriminate|]); eauto.
  - intros [= <- <-]. auto.
Qed.

Lemma poll_item_rel (env : Env) (fuel : nat) (x y : ProblemTestState.t)
      (v v' : World) :
  poll_item env fuel x v = (Ok y, v') -> polled_from x y.
Proof.
  unfold poll_item, polled_from.
  destruct (truthy_int (ProblemTestState.submission_id x)); simpl.
  - destruct (ProblemTestState.submission_id x) as [sid|].
    + intros Hrun.
      apply bind_inv in Hrun as [(r & w1 & _ & Hrun)|[(e & _ & [=])|[_ [=]]]].
      inversion Hrun; subst. split; [discriminate|]. eauto.
    + intros [= <- <-]. auto.
  - intros [= <- <-]. auto.
Qed.

Lemma submitted_from_fields (x y : ProblemTestState.t) :
  submitted_from x y -> same_input_fields x y.
Proof.
  intros [_ [->|(sid & ->)]]; now repeat split.
Qed.

Lemma polled_from_fields (x y : ProblemTestState.t) :
  polled_from x y ->
  same_input_fields x y /\
  ProblemTestState.submission_id y = ProblemTestState.submission_id x.
Proof.
  intros [_ [->|(v & ->)]]; now repeat split.
Qed.

Lemma same_input_fields_trans (x y z : ProblemTestState.t) :
  same_input_fields x y -> same_input_fields y z -> same_input_fields x z.
Proof.
  unfold same_input_fields. intros (?&?&?&?&?&?&?) (?&?&?&?&?&?&?).
  repeat split; congruence.
Qed.

(** The three states of the item of index [i] in a run that gets through
    the polls. *)
Lemma judged_lookup (env : Env) (fuel : nat) (w0 w3 w4 : World)
      (inputs submitted final : list ProblemTestState.t)
      (i : nat) (item : ProblemTestState.t) :
  judged env fuel w0 inputs submitted final w3 w4 ->
  inputs !! i = Some item ->
  loaded item /\
  exists s f,
    submitted !! i = Some s /\ final !! i = Some f /\
    submitted_from item s /\ polled_from s f.
Proof.
  intros (w1 & w2 & Hin & _ & _ & Hsub & Hpoll) Hi.
  apply prepare_inputs_loaded in Hin.
  split; [exact (proj1 (Forall_lookup _ _) Hin i item Hi)|].
  apply (for_each_Forall2 submitted_from) in Hsub;
    [|intros x v y v' H; eapply submit_item_rel; exact H].
  apply (for_each_Forall2 polled_from) in Hpoll;
    [|intros x v y v' H; eapply poll_item_rel; exact H].
  destruct (Forall2_lookup_l _ _ _ _ _ Hsub Hi) as (s & Hs & Hrel1).
  destruct (Forall2_lookup_l _ _ _ _ _ Hpoll Hs) as (f & Hf & Hrel2).
  eauto 10.
Qed.

Lemma judged_length (env : Env) (fuel : nat) (w0 w3 w4 : World)
      (inputs submitted final : list ProblemTestState.t) :
  judged env fuel w0 inputs submitted final w3 w4 ->
  length submitted = length inputs /\ length final = length inputs.
Proof.
  intros (w1 & w2 & _ & _ & _ & Hsub & Hpoll).
  apply (for_each_Forall2 (fun _ _ => True)) in Hsub; [|auto].
  apply (for_each_Forall2 (fun _ _ => True)) in Hpoll; [|auto].
  apply Forall2_length in Hsub, Hpoll. split; congruence.
Qed.

(** ** The output records *)

Lemma result_of_item_loaded (item : ProblemTestState.t) (t : string) :
  ProblemTestState.text_response item = Some t ->
  result_of_item item = inr (output_record item).
Proof.
  destruct item as [pid title dif plat text c sid jr meta]. simpl.
  intros ->. now destruct c, sid.
Qed.

Lemma build_results_loaded (items : list ProblemTestState.t) :
  Forall (fun item => exists t, ProblemTestState.text_response item = Some t)
         items ->
  build_results items = inr (map output_record items).
Proof.
  induction 1 as [|item items [t Ht] _ IH]; simpl; [reflexivity|].
  rewrite (result_of_item_loaded item t Ht), IH. reflexivity.
Qed.

Lemma judged_final_text (env : Env) (fuel : nat) (w0 w3 w4 : World)
      (inputs submitted final : list ProblemTestState.t) :
  judged env fuel w0 inputs submitted final w3 w4 ->
  Forall (fun item => exists t, ProblemTestState.text_response item = Some t)
         final.
Proof.
  intros Hrun. apply Forall_lookup. intros i f Hf.
  destruct (judged_length _ _ _ _ _ _ _ _ Hrun) as [_ Hlen].
  destruct (lookup_lt_is_Some_2 inputs i) as [item Hi].
  { rewrite <- Hlen. eapply lookup_lt_Some; eauto. }
  destruct (judged_lookup _ _ _ _ _ _ _ _ _ _ Hrun Hi)
    as ([_ [t Ht]] & s & f' & Hs & Hf' & Hrel1 & Hrel2).
  assert (f' = f) as -> by congruence.
  apply submitted_from_fields in Hrel1 as (_&_&_&_&H1&_).
  apply polled_from_fields in Hrel2 as [(_&_&_&_&H2&_) _].
  exists t. congruence.
Qed.

Lemma output_record_explicit (item : ProblemTestState.t) :
  output_record item =
  [ ("problem_id", JStr (ProblemTestState.problem_id item));
    ("problem_title", JStr (ProblemTestState.problem_title item));
    ("difficulty", JStr (ProblemTestState.difficulty item));
    ("platform", JStr (ProblemTestState.platform item));
    ("text_response", json_of_opt_str (ProblemTestState.text_response item));
    ("code", json_of_opt_str (ProblemTestState.code item));
    ("judge_result", JStr (ProblemTestState.judge_result item));
    ("response_meta", ProblemTestState.response_meta item) ].
Proof. reflexivity. Qed.

(** The batch that a run uploads, if it uploads one. *)
Lemma main_upload (env : Env) (fuel : nat) (w0 w' : World)
      (r : Outcome unit) (batch : list pydict) :
  uploads (trace w0) = [] ->
  main env fuel w0 = (r, w') ->
  In batch (uploads (trace w')) ->
  uploads (trace w') = [batch] /\
  exists inputs submitted final w3 w4,
    judged env fuel w0 inputs submitted final w3 w4 /\
    batch = map output_record final.
Proof.
  intros Hw0 Hrun Hin.
  apply main_inv in Hrun as (evs & Htr & _ & Hcases).
  rewrite Htr, uploads_app, Hw0 in Hin |- *. simpl in *.
  destruct Hcases as [(_ & Hu & _)|(_ & [(Hu & _)|Hok])];
    try (rewrite Hu in Hin; contradiction).
  destruct Hok as (inputs & submitted & final & w3 & w4 & results
                   & Hjudged & Hbuild & Hu).
  rewrite (build_results_loaded final) in Hbuild
    by (eapply judged_final_text; eauto).
  injection Hbuild as <-. rewrite Hu in Hin |- *.
  destruct Hin as [<-|[]]. split; [reflexivity|]. eauto 10.
Qed.

Lemma main_events (env : Env) (fuel : nat) (w0 w' : World) (r : Outcome unit)
      (evs : list Event) :
  main env fuel w0 = (r, w') -> trace w' = trace w0 ++ evs ->
  Forall (fun ev => main_event ev = true) evs.
Proof.
  intros Hrun Htr.
  destruct (emits_main env fuel _ _ _ Hrun) as (evs' & Htr' & Hevs).
  rewrite Htr in Htr'. apply app_inv_head in Htr'. now subst.
Qed.

(** ** C7: the output batch *)

(** C7: when a run of [main] uploads a batch, it uploads that batch only,
    the run has got through the load, the submissions and the polls, and
    the batch has one record per input item, in the order of the input.
    The record of index [i] is made of eight keys, in this order, with
    these values: [problem_id], [problem_title], [difficulty],
    [platform], [text_response], [code] and [response_meta] with the
    values that the item of index [i] was loaded with ([code] being
    null when the item has none), and [judge_result] with the value that
    the item has after the polls.  It is the dump of that item, as the
    polls have left it, without the key [submission_id], which no record
    has. *)
Theorem C7_output_batch_matches_input
    (env : Env) (fuel : nat) (w0 w' : World) (r : Outcome unit)
    (batch : list pydict) :
  uploads (trace w0) = [] ->
  main env fuel w0 = (r, w') ->
  In batch (uploads (trace w')) ->
  uploads (trace w') = [batch] /\
  exists inputs submitted final w3 w4,
    judged env fuel w0 inputs submitted final w3 w4 /\
    length batch = length inputs /\
    forall i item,
      inputs !! i = Some item ->
      exists item' t,
        final !! i = Some item' /\
        same_input_fields item item' /\
        ProblemTestState.text_response item = Some t /\
        batch !! i =
        Some [ ("problem_id", JStr (ProblemTestState.problem_id item));
               ("problem_title", JStr (ProblemTestState.problem_title item));
               ("difficulty", JStr (ProblemTestState.difficulty item));
               ("platform", JStr (ProblemTestState.platform item));
               ("text_response", JStr t);
               ("code", match ProblemTestState.code item with
                        | Some c => JStr c
                        | None => JNull
                        end);
               ("judge_result", JStr (ProblemTestState.judge_result item'));
               ("response_meta", ProblemTestState.response_meta item) ] /\
        batch !! i =
        Some (drop_key "submission_id" (ProblemTestState_model_dump item')) /\
        keys (drop_key "submission_id" (ProblemTestState_model_dump item'))
        = output_keys /\
        dict_get "submission_id"
          (drop_key "submission_id" (ProblemTestState_model_dump item'))
        = None.
Proof.
  intros Hw0 Hrun Hin.
  destruct (main_upload _ _ _ _ _ _ Hw0 Hrun Hin)
    as (Hone & inputs & submitted & final & w3 & w4 & Hjudged & ->).
  split; [exact Hone|].
  exists inputs, submitted, final, w3, w4. split; [exact Hjudged|].
  destruct (judged_length _ _ _ _ _ _ _ _ Hjudged) as [_ Hlen].
  split; [now rewrite length_map|].
  intros i item Hi.
  destruct (judged_lookup _ _ _ _ _ _ _ _ _ _ Hjudged Hi)
    as ((_ & t & Ht) & s & f & Hs & Hf & Hrel1 & Hrel2).
  assert (Hsame : same_input_fields item f).
  { eapply same_input_fields_trans.
    - exact (submitted_from_fields _ _ Hrel1).
    - exact (proj1 (polled_from_fields _ _ Hrel2)). }
  exists f, t. split; [exact Hf|]. split; [exact Hsame|].
  split; [exact Ht|].
  split; [|split; [|split; reflexivity]];
    rewrite list_lookup_fmap, Hf; [|reflexivity].
  simpl. rewrite output_record_explicit.
  destruct Hsame as (-> & -> & -> & -> & Htext & -> & ->).
  rewrite <- Htext, Ht. reflexivity.
Qed.

(** ** C4: an item without a program *)

(** C4: for an item whose [code] is [None] or empty, the body of the
    first loop sets [judge_result] to "Judge Failed" and does nothing
    else, so no call of [submit] is made for it; no run of [main] ever
    submits an empty program; and in the batch that a run uploads the
    record of that item has [judge_result = "Judge Failed"]. *)
Theorem C4_empty_code_is_judge_failed
    (env : Env) (fuel : nat) (w0 w' : World) (r : Outcome unit) :
  (forall item w,
     truthy_opt (ProblemTestState.code item) = false ->
     submit_item env item w =
     (Ok (ProblemTestState.set_judge_result "Judge Failed" item), w)) /\
  (main env fuel w0 = (r, w') ->
   forall evs pid lang c,
     trace w' = trace w0 ++ evs -> In (EvSubmit pid lang c) evs -> c <> "") /\
  (uploads (trace w0) = [] ->
   main env fuel w0 = (r, w') ->
   forall batch,
     In batch (uploads (trace w')) ->
     exists inputs submitted final w3 w4,
       judged env fuel w0 inputs submitted final w3 w4 /\
       forall i item,
         inputs !! i = Some item ->
         truthy_opt (ProblemTestState.code item) = false ->
         exists record,
           batch !! i = Some record /\
           dict_get "judge_result" record = Some (JStr "Judge Failed")).
Proof.
  split; [|split].
  - intros item w Hcode. rewrite submit_item_run.
    now destruct (ProblemTestState.code item) as [[|a c']|].
  - intros Hrun evs pid lang c Htr Hin.
    pose proof (main_events _ _ _ _ _ _ Hrun Htr) as Hevs.
    apply (proj1 (List.Forall_forall _ _) Hevs) in Hin. simpl in Hin.
    now apply truthy_nonempty.
  - intros Hw0 Hrun batch Hin.
    destruct (main_upload _ _ _ _ _ _ Hw0 Hrun Hin)
      as (_ & inputs & submitted & final & w3 & w4 & Hjudged & ->).
    exists inputs, submitted, final, w3, w4. split; [exact Hjudged|].
    intros i item Hi Hcode.
    destruct (judged_lookup _ _ _ _ _ _ _ _ _ _ Hjudged Hi)
      as ([Hsid _] & s & f & Hs & Hf & [Hrel1 _] & [Hrel2 _]).
    specialize (Hrel1 Hcode). subst s.
    rewrite Hrel2 in Hf by (simpl; now rewrite Hsid).
    exists (output_record
              (ProblemTestState.set_judge_result "Judge Failed" item)).
    split; [|reflexivity].
    rewrite list_lookup_fmap, Hf. reflexivity.
Qed.

Lemma BenchmarkResult_validate_default (d : pydict) (r : BenchmarkResult.t) :
  BenchmarkResult_validate d = inr r ->
  dict_get "judge_result" d = None ->
  BenchmarkResult.judge_result r = "Judging".
Proof.
  unfold BenchmarkResult_validate, sum_bind, field_str_default.
  intros H Hkey. rewrite Hkey in H.
  repeat match type of H with
         | match ?x with _ => _ end = _ => destruct x; try discriminate
         end.
  now injection H as <-.
Qed.

Lemma prepare_item_default (env : Env) (d : pydict)
      (item : ProblemTestState.t) :
  prepare_item env (JObj d) = inr item ->
  dict_get "judge_result" d = None ->
  ProblemTestState.judge_result item = "Judging".
Proof.
  unfold prepare_item, sum_bind. simpl.
  destruct (BenchmarkResult_validate d) as [e|r] eqn:Hr; [discriminate|].
  rewrite ProblemTestState_of_BenchmarkResult. intros [= <-] Hkey. simpl.
  destruct (negb _); simpl; eapply BenchmarkResult_validate_default; eauto.
Qed.

Lemma BenchmarkResult_validate_given (d : pydict) (r : BenchmarkResult.t)
      (v : string) :
  BenchmarkResult_validate d = inr r ->
  dict_get "judge_result" d = Some (JStr v) ->
  BenchmarkResult.judge_result r = v.
Proof.
  unfold BenchmarkResult_validate, sum_bind, field_str_default.
  intros H Hkey. rewrite Hkey in H.
  repeat match type of H with
         | match ?x with _ => _ end = _ => destruct x; try discriminate
         end.
  now injection H as <-.
Qed.

Lemma prepare_item_given (env : Env) (d : pydict)
      (item : ProblemTestState.t) (v : string) :
  prepare_item env (JObj d) = inr item ->
  dict_get "judge_result" d = Some (JStr v) ->
  ProblemTestState.judge_result item = v.
Proof.
  unfold prepare_item, sum_bind. simpl.
  destruct (BenchmarkResult_validate d) as [e|r] eqn:Hr; [discriminate|].
  rewrite ProblemTestState_of_BenchmarkResult. intros [= <-] Hkey. simpl.
  destruct (negb _); simpl; eapply BenchmarkResult_validate_given; eauto.
Qed.

(** ** C10: the submission id 0 *)

(** C10, as stated, fails on an input record that carries a verdict
    already.  The record comes with [judge_result = "Accepted"], the
    judge numbers the submission 0, the item is not polled, and the
    record that is uploaded says "Accepted", not "Judging". *)
Lemma C10_stale_judge_result_counterexample :
  let env :=
    sample_env (sample_http (JArr [verdict_record "A" "print(1)" "Accepted"]))
               zero_submit prompt_get_result in
  let run := main env 5 initial_world in
  In (EvSubmit "A" PYPY "print(1)") (trace (snd run)) /\
  (forall tr, judge_submit env tr "A" PYPY "print(1)" = inr 0%Z) /\
  ~ In (EvGetResult 0) (trace (snd run)) /\
  exists record,
    uploads (trace (snd run)) = [[record]] /\
    dict_get "judge_result" record = Some (JStr "Accepted") /\
    dict_get "judge_result" record <> Some (JStr "Judging").
Proof.
  intros env run. split; [vm_compute; auto 20|]. split; [reflexivity|].
  split.
  - vm_compute. intuition discriminate.
  - eexists. split; [vm_compute; reflexivity|]. split; [reflexivity|].
    discriminate.
Qed.

(** C10, amended: when [submit] returns 0 for an item, the first loop
    stores it as the [submission_id] of the item, and such an item is
    skipped by the second loop: the body of the loop returns it as it is
    and calls nothing, whatever the fuel; no run of [main] ever polls the
    id 0; and in the batch that a run uploads, the record of an item
    that left the first loop with the id 0 has the [judge_result] that
    the item was loaded with.  That is the [judge_result] of the input
    record when the record has one, and the default "Judging" when it
    has none. *)
Theorem C10_submission_id_zero_is_skipped
    (env : Env) (fuel : nat) (w0 w' : World) (r : Outcome unit) :
  (forall item w,
     ProblemTestState.submission_id item = Some 0%Z ->
     poll_item env fuel item w = (Ok item, w)) /\
  (main env fuel w0 = (r, w') ->
   forall evs, trace w' = trace w0 ++ evs -> ~ In (EvGetResult 0) evs) /\
  (uploads (trace w0) = [] ->
   main env fuel w0 = (r, w') ->
   forall batch,
     In batch (uploads (trace w')) ->
     exists inputs submitted final w3 w4,
       judged env fuel w0 inputs submitted final w3 w4 /\
       forall i item s,
         inputs !! i = Some item ->
         submitted !! i = Some s ->
         ProblemTestState.submission_id s = Some 0%Z ->
         final !! i = Some s /\
         exists record,
           batch !! i = Some record /\
           dict_get "judge_result" record =
           Some (JStr (ProblemTestState.judge_result item)) /\
           (ProblemTestState.judge_result item = "Judging" ->
            dict_get "judge_result" record = Some (JStr "Judging"))) /\
  (forall d item,
     prepare_item env (JObj d) = inr item ->
     dict_get "judge_result" d = None ->
     ProblemTestState.judge_result item = "Judging") /\
  (forall item w a c',
     let c := String a c' in
     let pid := ProblemTestState.problem_id item in
     ProblemTestState.code item = Some c ->
     judge_submit env (trace w) pid (detect_language c) c = inr 0%Z ->
     submit_item env item w =
     (Ok (ProblemTestState.set_submission_id (Some 0%Z) item),
      {| token := token w;
         trace := trace w ++ [EvSubmit pid (detect_language c) c] |})) /\
  (forall d item v,
     prepare_item env (JObj d) = inr item ->
     dict_get "judge_result" d = Some (JStr v) ->
     ProblemTestState.judge_result item = v).
Proof.
  split; [|split; [|split; [|split; [|split]]]];
    [| | | |intros item w a c' c pid Hcode Hzero;
            rewrite submit_item_run, Hcode; simpl; fold c pid;
            now rewrite Hzero
     |intros d item v Hitem Hkey; eapply prepare_item_given; eauto].
  - intros item w Hsid. apply poll_item_skip. now rewrite Hsid.
  - intros Hrun evs Htr Hin.
    pose proof (main_events _ _ _ _ _ _ Hrun Htr) as Hevs.
    apply (proj1 (List.Forall_forall _ _) Hevs) in Hin. discriminate Hin.
  - intros Hw0 Hrun batch Hin.
    destruct (main_upload _ _ _ _ _ _ Hw0 Hrun Hin)
      as (_ & inputs & submitted & final & w3 & w4 & Hjudged & ->).
    exists inputs, submitted, final, w3, w4. split; [exact Hjudged|].
    intros i item s Hi Hs Hzero.
    destruct (judged_lookup _ _ _ _ _ _ _ _ _ _ Hjudged Hi)
      as ([Hsid _] & s' & f & Hs' & Hf & [_ Hrel1] & [Hrel2 _]).
    assert (s' = s) as -> by congruence.
    rewrite Hrel2 in Hf by now rewrite Hzero. split; [exact Hf|].
    assert (Hjr : ProblemTestState.judge_result s =
                  ProblemTestState.judge_result item).
    { destruct Hrel1 as [->|(sid & ->)]; [|reflexivity].
      simpl in Hzero. congruence. }
    exists (output_record s). rewrite list_lookup_fmap, Hf.
    split; [reflexivity|]. split.
    + simpl. now rewrite Hjr.
    + intros Hdefault. simpl. now rewrite Hjr, Hdefault.
  - intros d item Hitem Hkey. eapply prepare_item_default; eauto.
Qed.

(** ** C6: the polls *)

(** An item with a submission id other than 0 is polled until the judge
    answers something else than "Judging", with a sleep of one second
    after each "Judging", and gets that answer as its [judge_result]. *)
Lemma poll_item_until_verdict
    (env : Env) (item : ProblemTestState.t) (sid : Z) (v : string)
    (k fuel : nat) (w : World) :
  ProblemTestState.submission_id item = Some sid -> sid <> 0%Z ->
  (forall j, (j < k)%nat ->
     judge_get_result env (trace w ++ waiting sid j) sid = inr "Judging") ->
  judge_get_result env (trace w ++ waiting sid k) sid = inr v ->
  v <> "Judging" ->
  (k < fuel)%nat ->
  poll_item env fuel item w =
  (Ok (ProblemTestState.set_judge_result v item),
   {| token := token w;
      trace := trace w ++ waiting sid k ++ [EvGetResult sid] |}).
Proof.
  intros Hsid Hne Hwait Hv Hvne Hfuel.
  rewrite (poll_item_poll env fuel item sid Hsid Hne).
  unfold bind. now rewrite (poll_run env sid v k fuel w).
Qed.

(** An item without a submission id is not polled. *)
Lemma poll_item_unsubmitted
    (env : Env) (fuel : nat) (item : ProblemTestState.t) (w : World) :
  ProblemTestState.submission_id item = None ->
  poll_item env fuel item w = (Ok item, w).
Proof. intros H. apply poll_item_skip. now rewrite H. Qed.

(** C6 fails on an item that has the submission id 0.  The judge numbers
    the submission 0 and would answer "Accepted" at the first poll; the
    item leaves the first loop with [submission_id = 0], the second loop
    calls nothing for it and its [judge_result] stays "Judging". *)
Theorem C6_submission_id_zero_is_never_polled :
  let env :=
    sample_env (sample_http (JArr [sample_record "A" (Some "print(1)")]))
               zero_submit prompt_get_result in
  let item := sample_item "A" (Some "print(1)") in
  exists s f w3 w4,
    for_each (submit_item env) [item] initial_world = (Ok [s], w3) /\
    ProblemTestState.submission_id s = Some 0%Z /\
    judge_get_result env (trace w3) 0 = inr "Accepted" /\
    for_each (poll_item env 5) [s] w3 = (Ok [f], w4) /\
    trace w4 = trace w3 /\
    ProblemTestState.judge_result f = "Judging".
Proof.
  intros env item.
  exists (ProblemTestState.set_submission_id (Some 0%Z) item),
         (ProblemTestState.set_submission_id (Some 0%Z) item),
         {| token := None; trace := [EvSubmit "A" PYPY "print(1)"] |},
         {| token := None; trace := [EvSubmit "A" PYPY "print(1)"] |}.
  repeat split.
Qed.

(** ** C3: the answer to the request for the input file *)

(** [prepare_inputs] never looks at the status of the answer: what it
    returns only depends on the JSON value of the body. *)
Lemma prepare_inputs_ignores_status
    (env : Env) (w w1 : World) (tok : string) (resp : Response) :
  get_oidc_token env w = (Ok tok, w1) ->
  http env (trace w1) (GetInputFile tok) = inr resp ->
  prepare_inputs env w =
  (match json resp with
   | None => Raise JSONDecodeError
   | Some j =>
       match (raw <- py_iter j ;; prepare_items env raw)%sum with
       | inl e => Raise e
       | inr items => Ok items
       end
   end,
   {| token := token w1; trace := trace w1 ++ [EvHttp (GetInputFile tok)] |}).
Proof.
  intros Htok Hresp. unfold prepare_inputs.
  rewrite (bind_Ok _ _ _ _ _ Htok). unfold bind, requests, response_json.
  rewrite Hresp. destruct (json resp) as [j|]; [|reflexivity]. simpl.
  now destruct (sum_bind (py_iter j) _).
Qed.

(** C3 fails when the input file is answered with status 503 and the
    JSON body [{}]: [prepare_inputs] returns the empty batch instead of
    raising, and the script goes on to upload an empty batch and to
    report "finished". *)
Theorem C3_input_error_status_is_not_raised :
  let env := sample_env input_error_http sample_submit sample_get_result in
  (exists w1, prepare_inputs env initial_world = (Ok [], w1)) /\
  exists w',
    script env 5 initial_world = (Ok tt, w') /\
    statuses (trace w') = ["running"; "finished"] /\
    uploads (trace w') = [[]] /\
    logs (trace w') = [].
Proof.
  intros env. split.
  - eexists. vm_compute. reflexivity.
  - eexists. split; [vm_compute; reflexivity|]. repeat split.
Qed.

(** ** The script: the [try] block and the handler *)

Lemma script_run (env : Env) (fuel : nat) (w0 : World) :
  script env fuel w0 =
  match try_block env fuel w0 with
  | (Raise e, w1) => except_block env e w1
  | run => run
  end.
Proof. reflexivity. Qed.

(** What the [try] block sends: no log entry, and for statuses nothing,
    or "running", or "running" and "finished"; both when it returns. *)
Lemma try_block_inv (env : Env) (fuel : nat) (w0 w1 : World)
      (r : Outcome unit) :
  try_block env fuel w0 = (r, w1) ->
  exists evs,
    trace w1 = trace w0 ++ evs /\ logs evs = [] /\
    ((statuses evs = [] /\ r <> Ok tt) \/
     (statuses evs = ["running"] /\ r <> Ok tt) \/
     statuses evs = ["running"; "finished"]).
Proof.
  unfold try_block. intros Hrun.
  apply bind_inv in Hrun
    as [([] & w & Hmain & Hrun)|[(e & Hmain & ->)|[Hmain ->]]].
  - apply main_inv in Hmain as (evs1 & Htr1 & Hl1 & Hs1).
    assert (Hs : statuses evs1 = ["running"]).
    { destruct Hs1 as [(_ & _ & Hne)|[Hs _]]; [congruence|exact Hs]. }
    apply update_status_inv in Hrun as (evs2 & Htr2 & Hl2 & _ & Hs2).
    exists (evs1 ++ evs2).
    rewrite Htr2, Htr1, <- app_assoc, statuses_app, logs_app, Hl1, Hl2, Hs.
    split; [reflexivity|]. split; [reflexivity|].
    destruct Hs2 as [[-> Hne]|[-> _]]; auto.
  - apply main_inv in Hmain as (evs1 & Htr1 & Hl1 & Hs1).
    exists evs1. split; [exact Htr1|]. split; [exact Hl1|].
    destruct Hs1 as [(Hs & _)|[Hs _]]; rewrite Hs;
      [left|right; left]; split; auto; discriminate.
  - apply main_inv in Hmain as (evs1 & Htr1 & Hl1 & Hs1).
    exists evs1. split; [exact Htr1|]. split; [exact Hl1|].
    destruct Hs1 as [(Hs & _)|[Hs _]]; rewrite Hs;
      [left|right; left]; split; auto; discriminate.
Qed.

(** What the handler sends: nothing when [append_log] fails before its
    request; the log entry alone when [append_log] or the token of
    [update_status] fails after it; otherwise the log entry and then the
    status "failed", which is the last request. *)
Lemma except_block_inv (env : Env) (e : exn) (w1 w' : World)
      (r : Outcome unit) :
  except_block env e w1 = (r, w') ->
  exists evs,
    trace w' = trace w1 ++ evs /\
    ((logs evs = [] /\ statuses evs = [] /\ r <> Ok tt) \/
     (logs evs = [error_log env e] /\ statuses evs = [] /\ r <> Ok tt) \/
     (logs evs = [error_log env e] /\ statuses evs = ["failed"] /\
      exists pre tok, evs = pre ++ [EvHttp (PutStatus tok "failed")])).
Proof.
  unfold except_block. intros Hrun.
  apply bind_inv in Hrun
    as [([] & w2 & Hlog & Hrun)|[(e' & Hlog & ->)|[Hlog ->]]].
  - apply append_log_inv in Hlog as (evs1 & Htr1 & Hs1 & _ & Hl1).
    assert (Hl : logs evs1 = [error_log env e]).
    { destruct Hl1 as [[_ Hne]|Hl]; [congruence|exact Hl]. }
    apply update_status_inv in Hrun as (evs2 & Htr2 & Hl2 & _ & Hs2).
    exists (evs1 ++ evs2).
    rewrite Htr2, Htr1, <- app_assoc, statuses_app, logs_app, Hl, Hl2, Hs1.
    split; [reflexivity|]. simpl.
    destruct Hs2 as [[-> Hne]|[-> (pre & tok & ->)]]; [auto|].
    right. right. repeat split. exists (evs1 ++ pre), tok.
    now rewrite app_assoc.
  - apply append_log_inv in Hlog as (evs1 & Htr1 & Hs1 & _ & Hl1).
    exists evs1. split; [exact Htr1|].
    destruct Hl1 as [[-> _]| ->]; [left|right; left];
      repeat split; auto; discriminate.
  - apply append_log_inv in Hlog as (evs1 & Htr1 & Hs1 & _ & Hl1).
    exists evs1. split; [exact Htr1|].
    destruct Hl1 as [[-> _]| ->]; [left|right; left];
      repeat split; auto; discriminate.
Qed.

(** A first call that finds the identity endpoint failing ends the [try]
    block at once: the request to that endpoint is all that was sent. *)
Lemma try_block_credential_failure (env : Env) (fuel : nat) (w0 : World) :
  token w0 = None ->
  (forall resp,
     http env (trace w0) GetIdentity = inr resp -> error_status resp = true) ->
  exists e,
    try_block env fuel w0 =
    (Raise e, {| token := None; trace := trace w0 ++ [EvHttp GetIdentity] |}).
Proof.
  intros Htok Hdown.
  assert (Hget : exists e,
             get_oidc_token env w0 =
             (Raise e,
              {| token := None; trace := trace w0 ++ [EvHttp GetIdentity] |})).
  { rewrite get_oidc_token_stale by (unfold cache_stale; now rewrite Htok).
    rewrite fetch_oidc_token_run. unfold cache_test_events.
    rewrite Htok. simpl. rewrite app_nil_r.
    destruct (http env (trace w0) GetIdentity) as [e|resp] eqn:Hresp; eauto.
    rewrite (Hdown resp eq_refl). eauto. }
  destruct Hget as (e & Hget). exists e.
  unfold try_block, main, prepare_inputs, bind. now rewrite Hget.
Qed.

(** ** C1: the handler *)

(** C1, as stated, fails when the identity endpoint stays down: the first
    call raises, the handler needs a token to append its log entry,
    raises in turn, and the run ends with no log entry and no status. *)
Lemma C1_identity_down_counterexample :
  let env := sample_env identity_down_http sample_submit sample_get_result in
  let run := script env 5 initial_world in
  try_block env 5 initial_world =
  (Raise (HTTPError 500), {| token := None; trace := [EvHttp GetIdentity] |})
  /\ fst run = Raise (HTTPError 500)
  /\ trace (snd run) = [EvHttp GetIdentity; EvHttp GetIdentity]
  /\ ~ spec_failure_reported (trace (snd run)).
Proof.
  repeat split. intros [Hlogs _]. discriminate Hlogs.
Qed.

(** C1, amended: when an exception escapes the [try] block, the handler
    runs with it, and calls [append_log] with the text made of [str(e)]
    and of the traceback; the [try] block has sent no log entry.  If
    that call returns, the log entry is the only one of the run and the
    handler goes on with [update_status("failed")]; when the script then
    ends normally, the status "failed" is its last request.  If that call
    raises, the script ends with its exception and reports no status; it
    raises before its request when the token cannot be had, and then no
    log entry is sent either.  When the failure is that of the identity
    endpoint at
    the first call, the [try] block has sent that one request and
    nothing else: no item was processed. *)
Theorem C1_handler_logs_then_reports_failed
    (env : Env) (fuel : nat) (w0 w1 w' : World) (e : exn) (r : Outcome unit) :
  logs (trace w0) = [] ->
  try_block env fuel w0 = (Raise e, w1) ->
  script env fuel w0 = (r, w') ->
  error_log env e
  = ("Python error: " ++ exn_str env e ++ ", Traceback: " ++ format_exc env e)%string
  /\ except_block env e w1 = (r, w')
  /\ logs (trace w1) = []
  /\ (exists evs,
        trace w' = trace w1 ++ evs /\
        ((logs (trace w') = [] /\ statuses evs = [] /\ r <> Ok tt) \/
         (logs (trace w') = [error_log env e] /\ statuses evs = [] /\
          r <> Ok tt) \/
         (logs (trace w') = [error_log env e] /\ statuses evs = ["failed"] /\
          exists pre tok, evs = pre ++ [EvHttp (PutStatus tok "failed")])))
  /\ (forall w2,
        append_log env (error_log env e) w1 = (Ok tt, w2) ->
        logs (trace w') = [error_log env e] /\
        update_status env "failed" w2 = (r, w'))
  /\ (forall e2 w2,
        append_log env (error_log env e) w1 = (Raise e2, w2) ->
        r = Raise e2 /\ w' = w2 /\
        statuses (trace w') = statuses (trace w1))
  /\ (forall e2 w2,
        get_oidc_token env w1 = (Raise e2, w2) ->
        r = Raise e2 /\ w' = w2 /\
        logs (trace w') = [] /\ statuses (trace w') = statuses (trace w1))
  /\ (r = Ok tt ->
      logs (trace w') = [error_log env e] /\
      exists pre tok, trace w' = pre ++ [EvHttp (PutStatus tok "failed")])
  /\ (token w0 = None ->
      (forall resp,
         http env (trace w0) GetIdentity = inr resp ->
         error_status resp = true) ->
      trace w1 = trace w0 ++ [EvHttp GetIdentity]).
Proof.
  intros Hw0 Htry Hrun.
  rewrite script_run, Htry in Hrun.
  destruct (try_block_inv _ _ _ _ _ Htry) as (evs0 & Htr0 & Hl0 & _).
  assert (Hw1 : logs (trace w1) = []) by now rewrite Htr0, logs_app, Hw0, Hl0.
  destruct (except_block_inv _ _ _ _ _ Hrun) as (evs & Htr & Hcases).
  assert (Hlogs : logs (trace w') = logs evs) by now rewrite Htr, logs_app, Hw1.
  split; [reflexivity|]. split; [exact Hrun|]. split; [exact Hw1|].
  split; [|split; [|split; [|split; [|split]]]].
  - exists evs. split; [exact Htr|]. rewrite Hlogs. exact Hcases.
  - intros w2 Hlog. unfold except_block in Hrun.
    rewrite (bind_Ok _ _ _ _ _ Hlog) in Hrun. split; [|exact Hrun].
    apply append_log_inv in Hlog as (evs1 & Htr1 & _ & _ & Hl1).
    apply update_status_inv in Hrun as (evs2 & Htr2 & Hl2 & _).
    rewrite Htr2, Htr1, !logs_app, Hw1, Hl2.
    destruct Hl1 as [[_ Hne]|Hl1]; [congruence|]. now rewrite Hl1.
  - intros e2 w2 Hlog. unfold except_block, bind in Hrun.
    rewrite Hlog in Hrun. injection Hrun as <- <-.
    apply append_log_inv in Hlog as (evs1 & Htr1 & Hs1 & _).
    now rewrite Htr1, statuses_app, Hs1, app_nil_r.
  - intros e2 w2 Htoken. unfold except_block, append_log, bind in Hrun.
    rewrite Htoken in Hrun. injection Hrun as <- <-.
    destruct (emits_get_oidc_token env _ _ _ Htoken) as (pre & Htr1 & Hpre).
    destruct (token_trace _ Hpre) as (Hs1 & Hl1 & _).
    rewrite Htr1, statuses_app, logs_app, Hw1, Hs1, Hl1.
    repeat split. apply app_nil_r.
  - intros ->. rewrite Hlogs.
    destruct Hcases as [(_ & _ & Hne)|[(_ & _ & Hne)|(Hl & _ & pre & tok & Hevs)]];
      try congruence.
    split; [exact Hl|]. exists (trace w1 ++ pre), tok.
    now rewrite Htr, Hevs, app_assoc.
  - intros Htok Hdown.
    destruct (try_block_credential_failure env fuel w0 Htok Hdown)
      as (e' & Htry').
    rewrite Htry in Htry'. now inversion Htry'.
Qed.

(** On a sample: the identity endpoint fails on the first call only; the
    handler appends the entry and reports "failed". *)
Lemma C1_handler_logs_then_reports_failed_witness :
  let env := sample_env identity_flaky_http sample_submit sample_get_result in
  let run := script env 5 initial_world in
  logs (trace (snd run)) = [error_log env (HTTPError 500)] /\
  exists pre tok,
    trace (snd run) = pre ++ [EvHttp (PutStatus tok "failed")].
Proof.
  intros env run.
  apply (C1_handler_logs_then_reports_failed env 5 initial_world
           {| token := None; trace := [EvHttp GetIdentity] |}
           (snd run) (HTTPError 500) (fst run));
    reflexivity.
Defined.

(** ** C2: the statuses of a run *)

(** A call of [update_status] sends its status when, and only when, it
    has its token. *)
Lemma update_status_run (env : Env) (s : string) (w w' : World)
      (r : Outcome unit) :
  update_status env s w = (r, w') ->
  match get_oidc_token env w with
  | (Ok tok, w1) =>
      trace w' = trace w1 ++ [EvHttp (PutStatus tok s)] /\
      statuses (trace w') = statuses (trace w) ++ [s]
  | (_, w1) =>
      w' = w1 /\ r <> Ok tt /\ statuses (trace w') = statuses (trace w)
  end.
Proof.
  unfold update_status, bind. intros Hrun.
  destruct (get_oidc_token env w) as [[tok|e|] w1] eqn:Hg;
    destruct (emits_get_oidc_token env _ _ _ Hg) as (pre & Htr1 & Hpre);
    destruct (token_trace _ Hpre) as (Hs & _).
  - assert (Htr : trace w' = trace w1 ++ [EvHttp (PutStatus tok s)]).
    { unfold requests in Hrun.
      destruct (http env (trace w1) (PutStatus tok s)) as [e|resp].
      - now inversion Hrun.
      - unfold raise_for_status in Hrun.
        destruct (_ && _); now inversion Hrun. }
    split; [exact Htr|].
    now rewrite Htr, Htr1, !statuses_app, Hs, app_nil_r.
  - inversion Hrun; subst. split; [reflexivity|]. split; [discriminate|].
    now rewrite Htr1, statuses_app, Hs, app_nil_r.
  - inversion Hrun; subst. split; [reflexivity|]. split; [discriminate|].
    now rewrite Htr1, statuses_app, Hs, app_nil_r.
Qed.

(** A run of [main] sends "running" when, and only when, it has loaded
    its inputs and has the token for the call. *)
Lemma main_running (env : Env) (fuel : nat) (w0 w' : World)
      (r : Outcome unit) :
  statuses (trace w0) = [] ->
  main env fuel w0 = (r, w') ->
  (loaded_with_token env w0 /\ statuses (trace w') = ["running"]) \/
  (~ loaded_with_token env w0 /\ statuses (trace w') = [] /\ r <> Ok tt).
Proof.
  intros Hw0 Hrun.
  destruct (main_inv _ _ _ _ _ Hrun) as (evs & Htr & _ & Hcases).
  assert (Hin : statuses (trace w') = [] \/ statuses (trace w') = ["running"]).
  { rewrite Htr, statuses_app, Hw0.
    destruct Hcases as [(-> & _)|[-> _]]; auto. }
  unfold main in Hrun.
  destruct (prepare_inputs env w0) as [r1 w1] eqn:Hload.
  assert (Hs1 : statuses (trace w1) = []).
  { assert (Hsilent : emits (fun ev => silent ev = true) (prepare_inputs env))
      by now apply emits_prepare_inputs.
    destruct (Hsilent _ _ _ Hload) as (evs1 & Htr1 & Hevs1).
    destruct (silent_trace _ Hevs1) as (Hnone & _).
    now rewrite Htr1, statuses_app, Hw0, Hnone. }
  assert (Hno : forall P : Prop,
             (forall inputs, r1 <> Ok inputs) -> w' = w1 -> r <> Ok tt ->
             P \/ (~ loaded_with_token env w0 /\
                   statuses (trace w') = [] /\ r <> Ok tt)).
  { intros P Hne -> Hr. right. split; [|now split].
    intros (inputs & v1 & tok & v2 & Hl & _). rewrite Hload in Hl.
    injection Hl as -> _. now apply (Hne inputs). }
  unfold bind at 1 in Hrun. rewrite Hload in Hrun.
  destruct r1 as [inputs|e|];
    [|inversion Hrun; subst; now apply Hno
     |inversion Hrun; subst; now apply Hno].
  clear Hno.
  destruct (update_status env "running" w1) as [r2 w2] eqn:Hst.
  pose proof (update_status_run _ _ _ _ _ Hst) as Hsent.
  unfold bind at 1 in Hrun. rewrite Hst in Hrun.
  destruct (get_oidc_token env w1) as [[tok|e|] v] eqn:Hg.
  - left. split; [now exists inputs, w1, tok, v|].
    destruct Hsent as [_ Hsent]. rewrite Hs1 in Hsent. simpl in Hsent.
    assert (Hext : exists evs2, trace w' = trace w2 ++ evs2).
    { destruct r2 as [[]|e|].
      2,3: inversion Hrun; subst; exists []; now rewrite app_nil_r.
      assert (Hrest : emits (fun _ => True)
                (inputs' <- with_judge env
                              (submitted <- for_each (submit_item env) inputs ;;
                               for_each (poll_item env fuel) submitted) ;;
                 results <- lift (build_results inputs') ;;
                 upload_output env results)).
      { apply emits_bind; [now apply emits_loops|]. intros final.
        apply emits_bind; [apply emits_lift|]. intros results.
        now apply emits_upload_output. }
      destruct (Hrest _ _ _ Hrun) as (evs2 & Htr2 & _). now exists evs2. }
    destruct Hext as (evs2 & Htr2).
    rewrite Htr2, statuses_app, Hsent in Hin. rewrite Htr2, statuses_app, Hsent.
    destruct Hin as [Hin|Hin]; [discriminate Hin|exact Hin].
  - right. destruct Hsent as (-> & Hr2 & Hsent).
    assert (r = r2 /\ w' = v) as [-> ->]
      by (destruct r2 as [[]|e'|]; [congruence| |]; now inversion Hrun).
    split; [|split; [congruence|exact Hr2]].
    intros (inputs' & v1 & tok & v2 & Hl & Hg'). rewrite Hload in Hl.
    injection Hl as _ <-. congruence.
  - right. destruct Hsent as (-> & Hr2 & Hsent).
    assert (r = r2 /\ w' = v) as [-> ->]
      by (destruct r2 as [[]|e'|]; [congruence| |]; now inversion Hrun).
    split; [|split; [congruence|exact Hr2]].
    intros (inputs' & v1 & tok & v2 & Hl & Hg'). rewrite Hload in Hl.
    injection Hl as _ <-. congruence.
Qed.

(** The [try] block sends "running" and "finished", each when, and only
    when, the run has got to the call and has the token for it. *)
Lemma try_block_statuses (env : Env) (fuel : nat) (w0 w1 : World)
      (r1 : Outcome unit) :
  statuses (trace w0) = [] ->
  try_block env fuel w0 = (r1, w1) ->
  exists a b,
    statuses (trace w1) = a ++ b /\
    status_sent "running" (loaded_with_token env w0) a /\
    status_sent "finished" (reaches_finished env fuel w0) b /\
    (r1 = Ok tt -> b = ["finished"]).
Proof.
  intros Hw0 Htry. unfold try_block, bind in Htry.
  destruct (main env fuel w0) as [rm wm] eqn:Hmain.
  exists (statuses (trace wm)).
  assert (Ha : status_sent "running" (loaded_with_token env w0)
                 (statuses (trace wm))).
  { destruct (main_running _ _ _ _ _ Hw0 Hmain) as [[H1 H2]|(H1 & H2 & _)];
      [left|right]; auto. }
  assert (Hno : (forall v, (rm, wm) <> (Ok tt, v)) ->
                ~ reaches_finished env fuel w0).
  { intros Hne (v & tok & v2 & Hm & _). rewrite Hmain in Hm.
    exact (Hne v Hm). }
  destruct rm as [[]|e|].
  - pose proof (update_status_run _ _ _ _ _ Htry) as Hsent.
    destruct (get_oidc_token env wm) as [[tok|e|] v] eqn:Hg.
    + exists ["finished"]. split; [exact (proj2 Hsent)|]. split; [exact Ha|].
      split; [|reflexivity]. left. split; [|reflexivity].
      now exists wm, tok, v.
    + destruct Hsent as (_ & Hr & Hsent). exists [].
      rewrite app_nil_r. split; [exact Hsent|]. split; [exact Ha|].
      split; [|intros ->; congruence]. right. split; [|reflexivity].
      intros (v1 & tok & v2 & Hm & Hg'). rewrite Hmain in Hm.
      injection Hm as <-. congruence.
    + destruct Hsent as (_ & Hr & Hsent). exists [].
      rewrite app_nil_r. split; [exact Hsent|]. split; [exact Ha|].
      split; [|intros ->; congruence]. right. split; [|reflexivity].
      intros (v1 & tok & v2 & Hm & Hg'). rewrite Hmain in Hm.
      injection Hm as <-. congruence.
  - injection Htry as <- <-. exists []. rewrite app_nil_r.
    split; [reflexivity|]. split; [exact Ha|]. split; [|discriminate].
    right. split; [|reflexivity]. apply Hno. discriminate.
  - injection Htry as <- <-. exists []. rewrite app_nil_r.
    split; [reflexivity|]. split; [exact Ha|]. split; [|discriminate].
    right. split; [|reflexivity]. apply Hno. discriminate.
Qed.

(** The handler sends "failed" when, and only when, its call of
    [append_log] has returned and it has the token for the call. *)
Lemma except_block_statuses (env : Env) (e : exn) (w1 w' : World)
      (r : Outcome unit) :
  except_block env e w1 = (r, w') ->
  exists c,
    statuses (trace w') = statuses (trace w1) ++ c /\
    status_sent "failed"
      (exists w2 tok w3,
          append_log env (error_log env e) w1 = (Ok tt, w2) /\
          get_oidc_token env w2 = (Ok tok, w3)) c /\
    (r = Ok tt -> c = ["failed"]).
Proof.
  unfold except_block, bind. intros Hrun.
  destruct (append_log env (error_log env e) w1) as [ra w2] eqn:Hlog.
  destruct (append_log_inv _ _ _ _ _ Hlog) as (evs1 & Htr1 & Hs1 & _).
  assert (Hs2 : statuses (trace w2) = statuses (trace w1))
    by now rewrite Htr1, statuses_app, Hs1, app_nil_r.
  destruct ra as [[]|e'|].
  - pose proof (update_status_run _ _ _ _ _ Hrun) as Hsent.
    destruct (get_oidc_token env w2) as [[tok|e'|] v] eqn:Hg.
    + exists ["failed"]. rewrite <- Hs2. split; [exact (proj2 Hsent)|].
      split; [|reflexivity]. left. split; [|reflexivity].
      now exists w2, tok, v.
    + destruct Hsent as (_ & Hr & Hsent). exists []. rewrite app_nil_r.
      split; [congruence|]. split; [|intros ->; congruence].
      right. split; [|reflexivity].
      intros (v2 & tok & v3 & [= <-] & Hg'). congruence.
    + destruct Hsent as (_ & Hr & Hsent). exists []. rewrite app_nil_r.
      split; [congruence|]. split; [|intros ->; congruence].
      right. split; [|reflexivity].
      intros (v2 & tok & v3 & [= <-] & Hg'). congruence.
  - injection Hrun as <- <-. exists []. rewrite app_nil_r.
    split; [exact Hs2|]. split; [|discriminate]. right.
    split; [|reflexivity]. intros (v2 & tok & v3 & [=] & _).
  - injection Hrun as <- <-. exists []. rewrite app_nil_r.
    split; [exact Hs2|]. split; [|discriminate]. right.
    split; [|reflexivity]. intros (v2 & tok & v3 & [=] & _).
Qed.

(** The statuses of a whole run. *)
Lemma script_statuses (env : Env) (fuel : nat) (w0 w' : World)
      (r : Outcome unit) :
  statuses (trace w0) = [] ->
  script env fuel w0 = (r, w') ->
  exists a b c,
    statuses (trace w') = a ++ b ++ c /\
    status_sent "running" (loaded_with_token env w0) a /\
    status_sent "finished" (reaches_finished env fuel w0) b /\
    status_sent "failed" (reaches_failed env fuel w0) c /\
    (r = Ok tt -> b = ["finished"] \/ c = ["failed"]).
Proof.
  intros Hw0 Hrun. rewrite script_run in Hrun.
  destruct (try_block env fuel w0) as [r1 w1] eqn:Htry.
  destruct (try_block_statuses _ _ _ _ _ Hw0 Htry)
    as (a & b & Hab & Ha & Hb & Hok).
  exists a, b.
  assert (Hno : (forall e, r1 <> Raise e) -> ~ reaches_failed env fuel w0).
  { intros Hne (e & v1 & w2 & tok & w3 & Ht & _). rewrite Htry in Ht.
    injection Ht as -> _. now apply (Hne e). }
  destruct r1 as [[]|e|].
  - injection Hrun as <- <-. exists []. rewrite app_nil_r.
    split; [exact Hab|]. split; [exact Ha|]. split; [exact Hb|].
    split; [|auto]. right. split; [|reflexivity]. apply Hno. discriminate.
  - destruct (except_block_statuses _ _ _ _ _ Hrun) as (c & Hc & Hsent & Hokc).
    exists c. rewrite Hc, Hab, <- app_assoc.
    split; [reflexivity|]. split; [exact Ha|]. split; [exact Hb|].
    split; [|auto].
    destruct Hsent as [[(w2 & tok & w3 & Hlog & Hg) ->]|[Hn ->]].
    + left. split; [|reflexivity]. now exists e, w1, w2, tok, w3.
    + right. split; [|reflexivity].
      intros (e' & v1 & w2 & tok & w3 & Ht & Hlog & Hg).
      rewrite Htry in Ht. injection Ht as <- <-.
      apply Hn. now exists w2, tok, w3.
  - injection Hrun as <- <-. exists []. rewrite app_nil_r.
    split; [exact Hab|]. split; [exact Ha|]. split; [exact Hb|].
    split; [|discriminate]. right. split; [|reflexivity].
    apply Hno. discriminate.
Qed.



(** C2, as stated, fails in three ways.  When the first call of the
    identity endpoint fails, the run reports "failed" at its end, but it
    has never reported "running".  When the identity endpoint stays
    down, the run reports no status at all, neither at its start nor at
    its end.  And when the request that reports "finished" is answered
    with an error, the run reports two statuses at its end: "finished",
    then "failed". *)
Lemma C2_status_reports_counterexample :
  (let env := sample_env identity_flaky_http sample_submit sample_get_result in
   let run := script env 5 initial_world in
   fst run = Ok tt /\
   statuses (trace (snd run)) = ["failed"] /\
   ~ spec_status_reports (statuses (trace (snd run)))) /\
  (let env := sample_env identity_down_http sample_submit sample_get_result in
   let run := script env 5 initial_world in
   fst run = Raise (HTTPError 500) /\
   statuses (trace (snd run)) = [] /\
   ~ spec_status_reports (statuses (trace (snd run)))) /\
  (let env := sample_env (finished_error_http sample_batch) sample_submit
                sample_get_result in
   let run := script env 5 initial_world in
   fst run = Ok tt /\
   statuses (trace (snd run)) = ["running"; "finished"; "failed"] /\
   ~ spec_status_reports (statuses (trace (snd run)))).
Proof.
  split; [|split];
    (split; [vm_compute; reflexivity|]);
    (split; [vm_compute; reflexivity|]);
    intros [H|H]; vm_compute in H; discriminate H.
Qed.

(** C2, amended: the statuses that a run sends are "running", then
    "finished", then "failed", each once or not at all, and each when,
    and only when, the run gets to the call that sends it and that call
    has its token: "running" when the inputs are loaded, "finished" when
    [main] has returned, "failed" when the [try] block has raised and
    the handler has appended its log entry.  So a run that has loaded
    its inputs and has its token reports "running", once and first,
    wherever it fails later; a run whose load fails never reports
    "running".  When the [try] block returns, the statuses sent are
    "running" and "finished"; when the script ends normally, the last
    status sent is "finished" or "failed"; when it ends normally after
    an exception, it is "failed". *)
Theorem C2_statuses_of_a_run
    (env : Env) (fuel : nat) (w0 w' : World) (r : Outcome unit) :
  statuses (trace w0) = [] ->
  script env fuel w0 = (r, w') ->
  In (statuses (trace w'))
     [ []; ["running"]; ["failed"]; ["running"; "finished"];
       ["running"; "failed"]; ["running"; "finished"; "failed"] ] /\
  (r = Ok tt ->
   In (statuses (trace w'))
      [ ["failed"]; ["running"; "finished"]; ["running"; "failed"];
        ["running"; "finished"; "failed"] ]) /\
  (forall w1,
     try_block env fuel w0 = (Ok tt, w1) ->
     r = Ok tt /\ statuses (trace w') = ["running"; "finished"]) /\
  (forall e w1,
     try_block env fuel w0 = (Raise e, w1) ->
     r = Ok tt ->
     exists sent, statuses (trace w') = sent ++ ["failed"]) /\
  (forall e w1,
     prepare_inputs env w0 = (Raise e, w1) ->
     ~ In "running" (statuses (trace w'))) /\
  (exists a b c,
     statuses (trace w') = a ++ b ++ c /\
     status_sent "running" (loaded_with_token env w0) a /\
     status_sent "finished" (reaches_finished env fuel w0) b /\
     status_sent "failed" (reaches_failed env fuel w0) c) /\
  (In "running" (statuses (trace w')) <-> loaded_with_token env w0) /\
  (In "finished" (statuses (trace w')) <-> reaches_finished env fuel w0) /\
  (In "failed" (statuses (trace w')) <-> reaches_failed env fuel w0) /\
  (loaded_with_token env w0 ->
   exists rest,
     statuses (trace w') = "running" :: rest /\
     In rest [ []; ["finished"]; ["failed"]; ["finished"; "failed"] ]).
Proof.
  intros Hw0 Hrun.
  destruct (script_statuses _ _ _ _ _ Hw0 Hrun)
    as (a & b & c & Habc & Ha & Hb & Hc & _).
  rewrite script_run in Hrun.
  destruct (try_block env fuel w0) as [r1 w1] eqn:Htry.
  destruct (try_block_inv _ _ _ _ _ Htry) as (evs0 & Htr0 & _ & Hs0).
  assert (Hsent :
    exists evs,
      statuses (trace w') = statuses evs0 ++ statuses evs /\
      ((r1 = Ok tt /\ r = Ok tt /\ statuses evs = []) \/
       (r1 = Diverge /\ r = Diverge /\ statuses evs = []) \/
       (exists e, r1 = Raise e /\
          ((statuses evs = [] /\ r <> Ok tt) \/ statuses evs = ["failed"])))).
  { destruct r1 as [[]|e|].
    - inversion Hrun; subst. exists [].
      rewrite Htr0, statuses_app, Hw0, app_nil_r. auto 10.
    - destruct (except_block_inv _ _ _ _ _ Hrun) as (evs & Htr & Hcases).
      exists evs. rewrite Htr, Htr0, !statuses_app, Hw0. split; [reflexivity|].
      right. right. exists e. split; [reflexivity|].
      destruct Hcases as [(_ & Hs & Hne)|[(_ & Hs & Hne)|(_ & Hs & _)]]; auto.
    - inversion Hrun; subst. exists [].
      rewrite Htr0, statuses_app, Hw0, app_nil_r. auto 10. }
  destruct Hsent as (evs & Hsent & Hcases).
  split; [|split; [|split; [|split; [|split]]]].
  - rewrite Hsent.
    destruct Hs0 as [[-> _]|[[-> _]| ->]];
      destruct Hcases as [(_ & _ & ->)|[(_ & _ & ->)|(e & _ & [[-> _]| ->])]];
      simpl; auto 10.
  - intros ->. rewrite Hsent.
    destruct Hcases as [(-> & _ & ->)|[(_ & [=] & _)|(e & -> & [[_ Hne]| ->])]];
      try congruence.
    + destruct Hs0 as [[_ Hne]|[[_ Hne]| ->]]; try congruence. simpl. auto.
    + destruct Hs0 as [[-> _]|[[-> _]| ->]]; simpl; auto.
  - intros w1' [= -> ->]. rewrite Hsent.
    destruct Hcases as [(_ & -> & ->)|[([=] & _)|(e & [=] & _)]].
    destruct Hs0 as [[_ Hne]|[[_ Hne]| ->]]; try congruence. auto.
  - intros e w1' [= -> ->] ->. rewrite Hsent.
    destruct Hcases as [([=] & _)|[([=] & _)|(e' & _ & [[_ Hne]| ->])]];
      try congruence.
    eauto.
  - intros e w1' Hload.
    assert (Htry' : try_block env fuel w0 = (Raise e, w1')).
    { unfold try_block, main, bind. now rewrite Hload. }
    rewrite Htry in Htry'. injection Htry' as -> ->.
    assert (Hsilent : emits (fun ev => silent ev = true) (prepare_inputs env))
      by now apply emits_prepare_inputs.
    destruct (Hsilent _ _ _ Hload) as (evs1 & Htr1 & Hevs1).
    rewrite Htr1 in Htr0. apply app_inv_head in Htr0. subst evs1.
    destruct (silent_trace _ Hevs1) as (Hnone & _). rewrite Hsent, Hnone.
    destruct Hcases as [([=] & _)|[([=] & _)|(e' & _ & [[-> _]| ->])]];
      simpl; intuition discriminate.
  - split; [now exists a, b, c|]. rewrite Habc.
    destruct Ha as [[Ha ->]|[Ha ->]], Hb as [[Hb ->]|[Hb ->]],
      Hc as [[Hc ->]|[Hc ->]]; simpl;
      (split; [|split; [|split]]);
      try (intros _; eexists; split; [reflexivity|simpl; auto 10]);
      try (split; intros H); auto; try contradiction;
      try (repeat destruct H as [H|H]; try discriminate H; contradiction).
Qed.

(** On the sample batch: the run succeeds and reports "running", then
    "finished". *)
Lemma C2_statuses_of_a_run_witness :
  let env :=
    sample_env (sample_http sample_batch) sample_submit sample_get_result in
  let run := script env 5 initial_world in
  fst run = Ok tt /\ statuses (trace (snd run)) = ["running"; "finished"].
Proof.
  intros env run.
  destruct (C2_statuses_of_a_run env 5 initial_world (snd run) (fst run)
              eq_refl eq_refl) as (_ & _ & H & _).
  apply (H (snd run)). reflexivity.
Defined.

(** ** The theorems on a sample run *)

(** On the sample batch: the three records that the run uploads. *)
Lemma C7_output_batch_matches_input_witness :
  let env :=
    sample_env (sample_http sample_batch) sample_submit sample_get_result in
  let run := main env 5 initial_world in
  let batch := map output_record
                 [ ProblemTestState.set_judge_result "Accepted"
                     (ProblemTestState.set_submission_id (Some 7%Z)
                        (sample_item "A" (Some "#include <cstdio>")));
                   ProblemTestState.set_judge_result "Judge Failed"
                     (sample_item "B" None);
                   ProblemTestState.set_judge_result "Judge Failed"
                     (sample_item "unknown" (Some "print(1)")) ] in
  uploads (trace (snd run)) = [batch] /\
  exists inputs submitted final w3 w4,
    judged env 5 initial_world inputs submitted final w3 w4 /\
    length batch = length inputs.
Proof.
  intros env run batch.
  destruct (C7_output_batch_matches_input env 5 initial_world (snd run)
              (fst run) batch eq_refl eq_refl)
    as (Hone & inputs & submitted & final & w3 & w4 & Hjudged & Hlen & _).
  - vm_compute. left. reflexivity.
  - split; [exact Hone|].
    exists inputs, submitted, final, w3, w4. split; [exact Hjudged|exact Hlen].
Defined.

(** On the sample batch: the record of the second item, which has no
    program. *)
Lemma C4_empty_code_is_judge_failed_witness :
  let env :=
    sample_env (sample_http sample_batch) sample_submit sample_get_result in
  let run := main env 5 initial_world in
  exists batch record,
    In batch (uploads (trace (snd run))) /\
    batch !! 1%nat = Some record /\
    dict_get "judge_result" record = Some (JStr "Judge Failed").
Proof.
  intros env run.
  set (batch := List.hd [] (uploads (trace (snd run)))).
  assert (Hin : In batch (uploads (trace (snd run))))
    by (vm_compute; left; reflexivity).
  destruct (C4_empty_code_is_judge_failed env 5 initial_world (snd run)
              (fst run)) as (_ & _ & H).
  destruct (H eq_refl eq_refl batch Hin)
    as (inputs & submitted & final & w3 & w4 & Hjudged & Hitem).
  destruct (Hitem 1%nat (sample_item "B" None)) as (record & Hrecord & Hjr).
  - destruct Hjudged as (w1 & w2 & Hload & _).
    vm_compute in Hload. injection Hload as <- _. reflexivity.
  - reflexivity.
  - exists batch, record. auto.
Defined.

(** On a sample: a judge that numbers the only submission 0. *)
Lemma C10_submission_id_zero_is_skipped_witness :
  let env :=
    sample_env (sample_http (JArr [sample_record "A" (Some "print(1)")]))
               zero_submit prompt_get_result in
  let run := main env 5 initial_world in
  exists batch record,
    In batch (uploads (trace (snd run))) /\
    batch !! 0%nat = Some record /\
    dict_get "judge_result" record = Some (JStr "Judging").
Proof.
  intros env run.
  set (batch := List.hd [] (uploads (trace (snd run)))).
  assert (Hin : In batch (uploads (trace (snd run))))
    by (vm_compute; left; reflexivity).
  destruct (C10_submission_id_zero_is_skipped env 5 initial_world (snd run)
              (fst run)) as (_ & _ & H & _).
  destruct (H eq_refl eq_refl batch Hin)
    as (inputs & submitted & final & w3 & w4 & Hjudged & Hitem).
  destruct Hjudged as (w1 & w2 & Hload & Hstatus & _ & Hsubmit & _).
  vm_compute in Hload. injection Hload as <- <-.
  vm_compute in Hstatus. injection Hstatus as <-.
  vm_compute in Hsubmit. injection Hsubmit as <- _.
  destruct (Hitem 0%nat (sample_item "A" (Some "print(1)"))
              (ProblemTestState.set_submission_id (Some 0%Z)
                 (sample_item "A" (Some "print(1)")))
              eq_refl eq_refl eq_refl)
    as (_ & record & Hrecord & _ & Hdefault).
  exists batch, record. split; [exact Hin|]. split; [exact Hrecord|].
  apply Hdefault. reflexivity.
Defined.

(** * Further properties of the script *)

(** ** The credential cache, whatever the identity endpoint does *)

(** X1: whatever is cached and whatever the identity endpoint answers, a
    call of [get_oidc_token] ends (it has no loop), sends at most one
    request to the identity endpoint, and leaves the cache consistent: a
    call that returns a token leaves exactly that token in the cache, and
    a call that raises leaves the cache as it found it (the assignment
    comes after [raise_for_status]). *)
Theorem X1_get_oidc_token_keeps_cache_consistent (env : Env) (w : World) :
  let run := get_oidc_token env w in
  fst run <> Diverge /\
  (fetches (trace (snd run)) <= S (fetches (trace w)))%nat /\
  match fst run with
  | Ok tok => token (snd run) = Some tok
  | _ => token (snd run) = token w
  end.
Proof.
  assert (Hfetch : forall v,
    let run := fetch_oidc_token env v in
    fst run <> Diverge /\
    fetches (trace (snd run)) = S (fetches (trace v)) /\
    match fst run with
    | Ok tok => token (snd run) = Some tok
    | _ => token (snd run) = token v
    end).
  { intros v. cbv zeta. rewrite fetch_oidc_token_run.
    destruct (http env (trace v) GetIdentity) as [e|resp];
      [|destruct (error_status resp)]; simpl;
      rewrite fetches_app; change (fetches [EvHttp GetIdentity]) with 1%nat;
      repeat split; try discriminate; lia. }
  cbv zeta. unfold get_oidc_token, bind, get_token.
  destruct w as [[tok|] tr]; simpl.
  - destruct (truthy tok).
    + destruct (jwt_exp env tok) as [e|exp].
      * simpl. repeat split; [discriminate|lia].
      * unfold time_time.
        destruct (py_gt _ _) as [[|]|]; simpl.
        -- rewrite fetches_app. change (fetches [EvClock]) with 0%nat.
           repeat split; [discriminate|lia].
        -- destruct (Hfetch {| token := Some tok; trace := tr ++ [EvClock] |})
             as (H1 & H2 & H3).
           split; [exact H1|]. split; [|exact H3].
           rewrite H2. simpl. rewrite fetches_app.
           change (fetches [EvClock]) with 0%nat. lia.
        -- rewrite fetches_app. change (fetches [EvClock]) with 0%nat.
           repeat split; [discriminate|lia].
    + destruct (Hfetch {| token := Some tok; trace := tr |}) as (H1 & H2 & H3).
      split; [exact H1|]. split; [rewrite H2; simpl; lia|exact H3].
  - destruct (Hfetch {| token := None; trace := tr |}) as (H1 & H2 & H3).
    split; [exact H1|]. split; [rewrite H2; simpl; lia|exact H3].
Qed.

(** ** The load, record by record *)

Lemma prepare_item_run (env : Env) (j : JSON) :
  prepare_item env j =
  match BenchmarkResult_of_json j with
  | inl e => inl e
  | inr r => inr (item_of_record env r)
  end.
Proof.
  unfold prepare_item, sum_bind.
  destruct (BenchmarkResult_of_json j) as [e|r]; [reflexivity|].
  rewrite ProblemTestState_of_BenchmarkResult. unfold item_of_record.
  now destruct (truthy_opt (BenchmarkResult.code r)).
Qed.

Lemma prepare_items_Forall2 (env : Env) (raw : list JSON)
      (items : list ProblemTestState.t) :
  prepare_items env raw = inr items ->
  Forall2 (fun j item =>
             exists r, BenchmarkResult_of_json j = inr r /\
                       item = item_of_record env r) raw items.
Proof.
  revert items. induction raw as [|j raw IH]; simpl; intros items.
  - intros [= <-]. constructor.
  - rewrite prepare_item_run. unfold sum_bind.
    destruct (BenchmarkResult_of_json j) as [e|r] eqn:Hj; [discriminate|].
    destruct (prepare_items env raw) as [e|items'] eqn:Hraw; [discriminate|].
    intros [= <-]. constructor; eauto.
Qed.

(** X2: when [prepare_inputs] returns a batch, it has got a token, the
    request for the input file made with that token was answered, the
    body of the answer is a JSON value, and the batch is made from that
    value: the value was iterated (a JSON array into its elements) into
    as many records as the batch has items, in the same order, every
    record is one that [BenchmarkResult] accepts, and each item carries
    the fields of its record, no submission id, and as its program the
    [code] of the record when that is not empty, or else what
    [extract_longest_cpp_code] finds in the answer, or else what
    [extract_python_code] finds. *)
Theorem X2_prepare_inputs_builds_one_item_per_record
    (env : Env) (w0 w1 : World) (items : list ProblemTestState.t) :
  prepare_inputs env w0 = (Ok items, w1) ->
  exists tok v1 resp body raw,
    get_oidc_token env w0 = (Ok tok, v1) /\
    http env (trace v1) (GetInputFile tok) = inr resp /\
    json resp = Some body /\
    py_iter body = inr raw /\
    (forall l, body = JArr l -> raw = l) /\
    w1 = {| token := token v1;
            trace := trace v1 ++ [EvHttp (GetInputFile tok)] |} /\
    length raw = length items /\
    forall i j,
      raw !! i = Some j ->
      exists r,
        BenchmarkResult_of_json j = inr r /\
        items !! i = Some (item_of_record env r) /\
        ProblemTestState.code (item_of_record env r) =
        match BenchmarkResult.code r with
        | Some (String a c) => Some (String a c)
        | _ =>
            match extract_longest_cpp_code env
                    (BenchmarkResult.text_response r) with
            | Some (String a c) => Some (String a c)
            | _ => extract_python_code env (BenchmarkResult.text_response r)
            end
        end.
Proof.
  unfold prepare_inputs, bind. intros Hrun.
  destruct (get_oidc_token env w0) as [[tok|e|] v1]; try discriminate.
  unfold requests in Hrun.
  destruct (http env (trace v1) (GetInputFile tok)) as [e|resp] eqn:Hresp;
    [discriminate|].
  unfold response_json in Hrun.
  destruct (json resp) as [body|] eqn:Hbody; [|discriminate].
  simpl in Hrun. unfold sum_bind in Hrun.
  destruct (py_iter body) as [e|raw] eqn:Hiter; [discriminate|].
  destruct (prepare_items env raw) as [e|items'] eqn:Hraw; [discriminate|].
  injection Hrun as -> <-.
  apply prepare_items_Forall2 in Hraw.
  exists tok, v1, resp, body, raw.
  split; [reflexivity|]. split; [exact Hresp|]. split; [exact Hbody|].
  split; [exact Hiter|]. split; [intros l ->; now injection Hiter|].
  split; [reflexivity|].
  split; [eapply Forall2_length; eauto|].
  intros i j Hj.
  destruct (Forall2_lookup_l _ _ _ _ _ Hraw Hj) as (item & Hitem & r & Hr & ->).
  exists r. split; [exact Hr|]. split; [exact Hitem|].
  unfold item_of_record, py_or. simpl.
  destruct (BenchmarkResult.code r) as [[|a c]|]; simpl; try reflexivity;
    now destruct (extract_longest_cpp_code env _) as [[|a' c']|].
Qed.

(** On the sample batch: the three records of the answer, the three
    items. *)
Lemma X2_prepare_inputs_builds_one_item_per_record_witness :
  let env :=
    sample_env (sample_http sample_batch) sample_submit sample_get_result in
  exists raw,
    sample_batch = JArr raw /\
    length raw = 3%nat /\
    forall i j,
      raw !! i = Some j ->
      exists r,
        BenchmarkResult_of_json j = inr r /\
        sample_items !! i = Some (item_of_record env r).
Proof.
  intros env.
  destruct (X2_prepare_inputs_builds_one_item_per_record env initial_world
              (snd (prepare_inputs env initial_world)) sample_items eq_refl)
    as (tok & v1 & resp & body & raw & _ & Hresp & Hbody & _ & Harr & _
        & Hlen & Hraw).
  simpl in Hresp. injection Hresp as <-. simpl in Hbody.
  injection Hbody as <-.
  exists raw. split; [now rewrite (Harr _ eq_refl)|]. split; [exact Hlen|].
  intros i j Hj. destruct (Hraw i j Hj) as (r & Hr & Hitem & _). eauto.
Defined.

(** X3: the load takes a batch in full or not at all.  The loop of
    [prepare_inputs] raises exactly when some record is not one that
    [BenchmarkResult] accepts, and then with the exception of the first
    such record: the records after it are not looked at, and no item of
    the records before it is returned. *)
Theorem X3_prepare_items_raises_on_first_invalid_record
    (env : Env) (raw : list JSON) (e : exn) :
  prepare_items env raw = inl e <->
  exists before j after,
    raw = before ++ j :: after /\
    Forall valid_record before /\
    BenchmarkResult_of_json j = inl e.
Proof.
  split.
  - induction raw as [|j raw IH]; simpl; [discriminate|].
    rewrite prepare_item_run. unfold sum_bind.
    destruct (BenchmarkResult_of_json j) as [e'|r] eqn:Hj.
    + intros [= ->]. exists [], j, raw. auto.
    + destruct (prepare_items env raw) as [e'|items] eqn:Hraw;
        [|discriminate].
      intros [= ->].
      destruct (IH eq_refl) as (before & j' & after & -> & Hvalid & Hj').
      exists (j :: before), j', after. split; [reflexivity|].
      split; [|exact Hj']. constructor; [|exact Hvalid]. now exists r.
  - intros (before & j & after & -> & Hvalid & Hj).
    induction Hvalid as [|j0 before [r Hr] _ IH]; simpl;
      rewrite prepare_item_run; unfold sum_bind.
    + now rewrite Hj.
    + rewrite Hr. now rewrite IH.
Qed.

(** X4: what [prepare_inputs] makes of the body of the answer, once it
    has its token and the answer.  A body that is no JSON raises
    JSONDecodeError.  A JSON array is loaded record by record.  Of the
    other JSON values, the empty object and the empty string give the
    empty batch, for there is nothing to iterate; an object with a key
    and a string with a character raise TypeError, for the loop iterates
    keys and characters, which cannot be unpacked; null, a boolean and a
    number raise TypeError, for they cannot be iterated. *)
Theorem X4_prepare_inputs_by_shape_of_body
    (env : Env) (w w1 : World) (tok : string) (resp : Response) :
  get_oidc_token env w = (Ok tok, w1) ->
  http env (trace w1) (GetInputFile tok) = inr resp ->
  fst (prepare_inputs env w) =
  match json resp with
  | None => Raise JSONDecodeError
  | Some (JArr l) =>
      match prepare_items env l with
      | inl e => Raise e
      | inr items => Ok items
      end
  | Some (JObj []) | Some (JStr EmptyString) => Ok []
  | Some _ => Raise TypeError
  end.
Proof.
  intros Htok Hresp.
  rewrite (prepare_inputs_ignores_status env w w1 tok resp Htok Hresp). simpl.
  destruct (json resp) as [[| | |[|c s]|l|[|[k v] kv]]|]; reflexivity.
Qed.

(** On a sample: an answer whose body is the object of an error message
    raises TypeError. *)
Lemma X4_prepare_inputs_by_shape_of_body_witness :
  let http tr req :=
    match req with
    | GetInputFile _ =>
        inr (ok_response "" (Some (JObj [("detail", JStr "Not Found")])))
    | _ => sample_http JNull tr req
    end in
  let env := sample_env http sample_submit sample_get_result in
  fst (prepare_inputs env initial_world) = Raise TypeError.
Proof.
  intros http env.
  apply (X4_prepare_inputs_by_shape_of_body env initial_world
           (snd (get_oidc_token env initial_world)) "token-4600"
           (ok_response "" (Some (JObj [("detail", JStr "Not Found")]))));
    reflexivity.
Defined.

(** ** The two models and their dumps *)

Lemma result_of_item_run (item : ProblemTestState.t) :
  result_of_item item =
  if has_text_response item then inr (output_record item)
  else inl ValidationError.
Proof.
  destruct item as [pid title dif plat [t|] c sid jr meta]; simpl.
  - now destruct c, sid.
  - reflexivity.
Qed.

(** X5: the records of the output are built from the whole batch or not
    at all.  [text_response] may be [None] in a [ProblemTestState] and
    not in a [BenchmarkResult]: when every item has an answer, the list
    comprehension of [main] gives, for each item in order, its dump
    without the key [submission_id]; when some item has none, it raises
    ValidationError. *)
Theorem X5_build_results_needs_every_text_response
    (items : list ProblemTestState.t) :
  build_results items =
  if forallb has_text_response items then inr (map output_record items)
  else inl ValidationError.
Proof.
  induction items as [|item items IH]; simpl; [reflexivity|].
  rewrite result_of_item_run, IH. unfold sum_bind.
  destruct (has_text_response item); simpl; [|reflexivity].
  now destruct (forallb has_text_response items).
Qed.

(** X6: dumping a model and building it again from the dump gives the
    same object back, for both models: nothing is lost or changed by
    [model_dump] followed by the constructor. *)
Theorem X6_model_dump_round_trips :
  (forall r : BenchmarkResult.t,
     BenchmarkResult_validate (BenchmarkResult_model_dump r) = inr r) /\
  (forall s : ProblemTestState.t,
     ProblemTestState_validate (ProblemTestState_model_dump s) = inr s).
Proof.
  split.
  - intros [pid title dif plat text [c|] jr meta]; reflexivity.
  - intros [pid title dif plat [text|] [c|] [sid|] jr meta];
      unfold ProblemTestState_validate, sum_bind; simpl;
      rewrite ?Z.div_1_r, ?Qeq_bool_refl; reflexivity.
Qed.

(** ** The upload *)

(** X7: [upload_output] uploads only to the address that the API has
    just given.  When it returns, it has asked for the address, got an
    answer without error status, sent the results, and nothing else, to
    the text of that answer, and got an answer without error status
    there too; these two requests are the last two events.  When the
    request for the address is answered with an error status, it raises
    HTTPError and sends no upload. *)
Theorem X7_upload_output_puts_to_the_given_url
    (env : Env) (results : list pydict) (w : World) :
  (forall w',
     upload_output env results w = (Ok tt, w') ->
     exists pre tok resp resp',
       Forall (fun ev => token_event ev = true) pre /\
       trace w' =
       trace w ++ pre ++ [EvHttp (GetOutputFile tok);
                          EvHttp (PutUpload (text resp) results)] /\
       http env (trace w ++ pre) (GetOutputFile tok) = inr resp /\
       error_status resp = false /\
       http env (trace w ++ pre ++ [EvHttp (GetOutputFile tok)])
            (PutUpload (text resp) results) = inr resp' /\
       error_status resp' = false) /\
  (forall tok w1 resp,
     get_oidc_token env w = (Ok tok, w1) ->
     http env (trace w1) (GetOutputFile tok) = inr resp ->
     error_status resp = true ->
     upload_output env results w =
     (Raise (HTTPError (status_code resp)),
      {| token := token w1;
         trace := trace w1 ++ [EvHttp (GetOutputFile tok)] |})).
Proof.
  split.
  - intros w' Hrun. unfold upload_output in Hrun.
    apply (bind_split _ _ _ _ _ _ (emits_get_oidc_token env)) in Hrun
      as [(tok & w1 & pre & _ & Htr1 & Hpre & Hrun)|(pre & _ & _ & Hr)];
      [|now specialize (Hr tt)].
    unfold bind, requests in Hrun. rewrite Htr1 in Hrun.
    destruct (http env (trace w ++ pre) (GetOutputFile tok))
      as [e|resp] eqn:Hresp; [discriminate|].
    unfold raise_for_status at 1 in Hrun. fold (error_status resp) in Hrun.
    destruct (error_status resp) eqn:Hstatus; [discriminate|].
    simpl in Hrun. rewrite <- app_assoc in Hrun.
    destruct (http env _ (PutUpload (text resp) results))
      as [e|resp'] eqn:Hresp'; [discriminate|].
    unfold raise_for_status in Hrun. fold (error_status resp') in Hrun.
    destruct (error_status resp') eqn:Hstatus'; [discriminate|].
    injection Hrun as <-. simpl.
    exists pre, tok, resp, resp'. rewrite <- !app_assoc. auto 10.
  - intros tok w1 resp Htok Hresp Hstatus. unfold upload_output.
    rewrite (bind_Ok _ _ _ _ _ Htok). unfold bind, requests.
    rewrite Hresp. unfold raise_for_status. fold (error_status resp).
    now rewrite Hstatus.
Qed.

(** On a sample: the results go to the address that the API gave. *)
Lemma X7_upload_output_puts_to_the_given_url_witness :
  let env :=
    sample_env (sample_http sample_batch) sample_submit sample_get_result in
  exists pre tok resp,
    text resp = "https://upload" /\
    trace (snd (upload_output env [] initial_world)) =
    pre ++ [EvHttp (GetOutputFile tok); EvHttp (PutUpload (text resp) [])].
Proof.
  intros env.
  destruct (proj1 (X7_upload_output_puts_to_the_given_url env []
                     initial_world)
              (snd (upload_output env [] initial_world)) eq_refl)
    as (pre & tok & resp & resp' & _ & Htr & Hresp & _).
  exists pre, tok, resp. split; [|exact Htr].
  destruct tok; simpl in Hresp; injection Hresp as <-; reflexivity.
Defined.

(** ** The judge session *)

Lemma submit_item_trace (env : Env) (item : ProblemTestState.t) (w : World) :
  let run := submit_item env item w in
  trace (snd run) = trace w ++ submission_of item /\
  token (snd run) = token w.
Proof.
  cbv zeta. rewrite submit_item_run. unfold submission_of.
  destruct (ProblemTestState.code item) as [[|a c]|]; simpl;
    rewrite ?app_nil_r; auto.
  now destruct (judge_submit env _ _ _ _).
Qed.

Lemma submit_loop_trace
    (env : Env) (items : list ProblemTestState.t) (w : World) :
  let run := for_each (submit_item env) items w in
  trace (snd run) = trace w ++ submissions items /\
  token (snd run) = token w.
Proof.
  cbv zeta. revert w. induction items as [|item items IH]; intros w; simpl.
  - now rewrite app_nil_r.
  - destruct (submit_item_total env item w) as (item' & w1 & Hitem).
    destruct (submit_item_trace env item w) as [Htr1 Htok1].
    rewrite Hitem in Htr1, Htok1. simpl in Htr1, Htok1.
    rewrite (bind_Ok _ _ _ _ _ Hitem).
    destruct (for_each_total (submit_item env) items w1
                (submit_item_total env)) as (items' & w2 & Hitems).
    destruct (IH w1) as [Htr2 Htok2].
    rewrite Hitems in Htr2, Htok2. simpl in Htr2, Htok2.
    rewrite (bind_Ok _ _ _ _ _ Hitems). simpl.
    rewrite Htr2, Htr1, Htok2, Htok1, app_assoc. auto.
Qed.

(** X8: whatever the judge answers, the first loop of [main] calls
    [submit] for the items that have a program, and for no other, once
    each and in the order of the batch, with the problem id and the
    program of the item and the language that [detect_language] finds
    for the program; it calls nothing else and leaves the cached token
    alone.  The loop always returns, with one item per item. *)
Theorem X8_submit_loop_submits_each_program_once
    (env : Env) (items : list ProblemTestState.t) (w : World) :
  let run := for_each (submit_item env) items w in
  (exists submitted,
     fst run = Ok submitted /\ length submitted = length items) /\
  trace (snd run) = trace w ++ submissions items /\
  token (snd run) = token w /\
  submissions items =
  flat_map (fun item =>
              match ProblemTestState.code item with
              | Some (String a c) =>
                  [EvSubmit (ProblemTestState.problem_id item)
                            (detect_language (String a c)) (String a c)]
              | _ => []
              end) items.
Proof.
  cbv zeta. split; [|split; [|split]].
  - destruct (for_each_total (submit_item env) items w
                (submit_item_total env)) as (submitted & w' & Hrun).
    exists submitted. rewrite Hrun. split; [reflexivity|]. symmetry.
    eapply Forall2_length, for_each_Forall2 with (R := fun _ _ => True);
      eauto.
  - apply submit_loop_trace.
  - apply submit_loop_trace.
  - reflexivity.
Qed.

Lemma emits_poll_loop (env : Env) (fuel : nat)
      (items : list ProblemTestState.t) :
  emits (fun ev => poll_event ev = true)
        (for_each (poll_item env fuel) items).
Proof.
  apply emits_for_each. intros item. apply emits_poll_item; [|reflexivity].
  intros sid Hsid. simpl. now apply negb_true_iff, Z.eqb_neq.
Qed.

(** X9: the [with] block of [main].  When entering the judge raises,
    nothing is submitted and the judge is not left.  Otherwise what the
    block does is: the submissions of the whole batch, then polls and
    sleeps and nothing else (no submission comes after a poll, and no
    request to the API is made inside the block), then the exit, which
    also runs when a poll raises; only a poll loop that never ends keeps
    the judge open. *)
Theorem X9_judge_session_submits_then_polls_then_exits
    (env : Env) (fuel : nat) (inputs : list ProblemTestState.t) (w : World) :
  let run := judge_session env fuel inputs w in
  match judge_enter env (trace w) with
  | Some e => run = (Raise e, entered w)
  | None =>
      exists polls,
        Forall (fun ev => poll_event ev = true) polls /\
        trace (snd run) =
        trace w ++ [EvJudgeEnter] ++ submissions inputs ++ polls ++
        match fst run with Diverge => [] | _ => [EvJudgeExit] end
  end.
Proof.
  cbv zeta. unfold judge_session, with_judge.
  destruct (judge_enter env (trace w)) as [e|]; [reflexivity|].
  fold (entered w).
  destruct (for_each_total (submit_item env) inputs (entered w)
              (submit_item_total env)) as (submitted & w3 & Hsub).
  destruct (submit_loop_trace env inputs (entered w)) as [Htr3 _].
  rewrite Hsub in Htr3. simpl in Htr3.
  rewrite (bind_Ok _ _ _ _ _ Hsub).
  destruct (for_each (poll_item env fuel) submitted w3) as [r w4] eqn:Hpoll.
  destruct (emits_poll_loop env fuel submitted _ _ _ Hpoll)
    as (polls & Htr4 & Hpolls).
  exists polls. split; [exact Hpolls|].
  destruct r; simpl; rewrite Htr4, Htr3, <- ?app_assoc; simpl;
    rewrite ?app_nil_r; reflexivity.
Qed.

(** ** The polls, one loop at a time *)

(** A poll that raises ends the loop with its exception. *)
Lemma poll_raises (env : Env) (sid : Z) (e : exn) (k fuel : nat) (w : World) :
  (forall j, (j < k)%nat ->
     judge_get_result env (trace w ++ waiting sid j) sid = inr "Judging") ->
  judge_get_result env (trace w ++ waiting sid k) sid = inl e ->
  (k < fuel)%nat ->
  poll env fuel sid w =
  (Raise e, {| token := token w;
               trace := trace w ++ waiting sid k ++ [EvGetResult sid] |}).
Proof.
  revert fuel w. induction k as [|k IH]; intros fuel w Hwait He Hfuel;
    (destruct fuel as [|fuel]; [lia|]); simpl;
    unfold bind, get_result.
  - simpl in He. rewrite app_nil_r in He. now rewrite He.
  - pose proof (Hwait 0%nat ltac:(lia)) as H0. simpl in H0.
    rewrite app_nil_r in H0. rewrite H0. simpl.
    unfold time_sleep, emit. simpl.
    rewrite IH with (fuel := fuel); simpl; try lia.
    + now rewrite <- !app_assoc.
    + intros j Hj. specialize (Hwait (S j) ltac:(lia)). simpl in Hwait.
      now rewrite <- !app_assoc.
    + simpl in He. now rewrite <- !app_assoc.
Qed.

(** As long as the judge answers "Judging", the loop goes on. *)
Lemma poll_waits (env : Env) (sid : Z) (fuel : nat) (w : World) :
  (forall j, (j < fuel)%nat ->
     judge_get_result env (trace w ++ waiting sid j) sid = inr "Judging") ->
  poll env fuel sid w =
  (Diverge, {| token := token w; trace := trace w ++ waiting sid fuel |}).
Proof.
  revert w. induction fuel as [|fuel IH]; intros w Hwait; simpl.
  - unfold diverge. rewrite app_nil_r. now destruct w.
  - unfold bind, get_result.
    pose proof (Hwait 0%nat ltac:(lia)) as H0. simpl in H0.
    rewrite app_nil_r in H0. rewrite H0. simpl.
    unfold time_sleep, emit. simpl. rewrite IH; simpl.
    + now rewrite <- !app_assoc.
    + intros j Hj. specialize (Hwait (S j) ltac:(lia)). simpl in Hwait.
      now rewrite <- !app_assoc.
Qed.

(** What the loop returns is the last answer of the judge, and it is not
    "Judging". *)
Lemma poll_Ok_inv (env : Env) (fuel : nat) (sid : Z) (w w' : World)
      (v : string) :
  poll env fuel sid w = (Ok v, w') ->
  v <> "Judging" /\
  exists k,
    (k < fuel)%nat /\
    trace w' = trace w ++ waiting sid k ++ [EvGetResult sid] /\
    judge_get_result env (trace w ++ waiting sid k) sid = inr v.
Proof.
  revert w. induction fuel as [|fuel IH]; intros w; simpl; [discriminate|].
  unfold bind at 1, get_result.
  destruct (judge_get_result env (trace w) sid) as [e|r] eqn:Hr;
    [discriminate|].
  destruct (String.eqb r "Judging") eqn:Hjudging; simpl.
  - unfold bind, time_sleep, emit. simpl. intros Hrun.
    destruct (IH _ Hrun) as (Hv & k & Hk & Htr & Hans). simpl in Htr, Hans.
    split; [exact Hv|]. exists (S k). split; [lia|]. simpl.
    rewrite <- !app_assoc in Htr, Hans. auto.
  - intros [= <- <-]. split; [now apply String.eqb_neq|].
    exists 0%nat. simpl. rewrite app_nil_r. split; [lia|]. auto.
Qed.

(** X10: the second loop of [main] has no bound.  With a judge that
    answers "Judging" at every poll of a submission, the loop for that
    submission is still running after any number of polls: it has polled
    and slept as many times as it was given steps, and it has not
    returned. *)
Theorem X10_poll_has_no_timeout
    (env : Env) (item : ProblemTestState.t) (sid : Z) (fuel : nat)
    (w : World) :
  ProblemTestState.submission_id item = Some sid -> sid <> 0%Z ->
  (forall tr, judge_get_result env tr sid = inr "Judging") ->
  poll_item env fuel item w =
  (Diverge, {| token := token w; trace := trace w ++ waiting sid fuel |}) /\
  count_polls (waiting sid fuel) = fuel.
Proof.
  intros Hsid Hne Hjudging. split.
  - rewrite (poll_item_poll env fuel item sid Hsid Hne). unfold bind.
    rewrite poll_waits; [reflexivity|]. intros j _. apply Hjudging.
  - clear. induction fuel as [|fuel IH]; [reflexivity|].
    unfold count_polls in *. simpl. now rewrite IH.
Qed.

(** On a sample: a judge that never has a verdict, polled for 50 steps. *)
Lemma X10_poll_has_no_timeout_witness :
  let env :=
    sample_env (sample_http sample_batch) sample_submit
               (fun _ _ => inr "Judging") in
  let item :=
    ProblemTestState.set_submission_id (Some 7%Z)
      (sample_item "A" (Some "print(1)")) in
  fst (poll_item env 50 item initial_world) = Diverge /\
  count_polls (trace (snd (poll_item env 50 item initial_world))) = 50%nat.
Proof.
  intros env item.
  destruct (X10_poll_has_no_timeout env item 7%Z 50 initial_world
              eq_refl ltac:(discriminate) (fun _ => eq_refl)) as [Hrun Hn].
  rewrite Hrun. split; [reflexivity|exact Hn].
Defined.

(** ** Failures and verdicts of the polls in a run *)

(** X11: unlike a failure of [submit], a failure of [get_result] is not
    caught.  When it raises at a poll of some submission (after any
    number of "Judging"), the body of the second loop raises for its
    item; and when the second loop raises in a run of [main], [main]
    leaves the judge and ends with that exception: the results of the
    other items are lost, for nothing is uploaded. *)
Theorem X11_poll_failure_ends_main
    (env : Env) (fuel : nat) (e : exn) :
  (forall item sid k w,
     ProblemTestState.submission_id item = Some sid -> sid <> 0%Z ->
     (forall j, (j < k)%nat ->
        judge_get_result env (trace w ++ waiting sid j) sid = inr "Judging") ->
     judge_get_result env (trace w ++ waiting sid k) sid = inl e ->
     (k < fuel)%nat ->
     poll_item env fuel item w =
     (Raise e, {| token := token w;
                  trace := trace w ++ waiting sid k ++ [EvGetResult sid] |}))
  /\
  (forall w0 w1 w2 w3 w4 inputs submitted,
     prepare_inputs env w0 = (Ok inputs, w1) ->
     update_status env "running" w1 = (Ok tt, w2) ->
     judge_enter env (trace w2) = None ->
     for_each (submit_item env) inputs (entered w2) = (Ok submitted, w3) ->
     for_each (poll_item env fuel) submitted w3 = (Raise e, w4) ->
     main env fuel w0 = (Raise e, exited w4) /\
     uploads (trace (exited w4)) = uploads (trace w0)).
Proof.
  split.
  - intros item sid k w Hsid Hne Hwait He Hfuel.
    rewrite (poll_item_poll env fuel item sid Hsid Hne). unfold bind.
    now rewrite (poll_raises env sid e k fuel w).
  - intros w0 w1 w2 w3 w4 inputs submitted Hload Hstatus Henter Hsub Hpoll.
    assert (Hmain : main env fuel w0 = (Raise e, exited w4)).
    { unfold main. rewrite (bind_Ok _ _ _ _ _ Hload).
      rewrite (bind_Ok _ _ _ _ _ Hstatus).
      unfold bind at 1, with_judge. rewrite Henter. fold (entered w2).
      rewrite (bind_Ok _ _ _ _ _ Hsub), Hpoll. reflexivity. }
    split; [exact Hmain|].
    destruct (main_inv _ _ _ _ _ Hmain) as (evs & Htr & _ & Hcases).
    rewrite Htr, uploads_app.
    destruct Hcases as [(_ & -> & _)|(_ & [(-> & _)|Hok])];
      try apply app_nil_r.
    destruct Hok as (inputs' & submitted' & final & w3' & w4' & results
                     & (w1' & w2' & Hload' & Hstatus' & _ & Hsub' & Hpoll')
                     & _).
    rewrite Hload in Hload'. injection Hload' as <- <-.
    rewrite Hstatus in Hstatus'. injection Hstatus' as <-.
    rewrite Hsub in Hsub'. injection Hsub' as <- <-.
    rewrite Hpoll in Hpoll'. discriminate.
Qed.

(** On a sample: the judge fails at the first poll; the run has submitted
    its two programs and uploads nothing. *)
Lemma X11_poll_failure_ends_main_witness :
  let env :=
    sample_env (sample_http sample_batch) sample_submit
               (fun _ _ => inl (JudgeError "down")) in
  fst (main env 5 initial_world) = Raise (JudgeError "down") /\
  uploads (trace (snd (main env 5 initial_world))) = [].
Proof.
  intros env.
  pose (w1 := snd (prepare_inputs env initial_world)).
  pose (w2 := snd (update_status env "running" w1)).
  pose (sub := for_each (submit_item env) sample_items (entered w2)).
  pose (w3 := snd sub).
  pose (submitted :=
          match fst sub with Ok l => l | _ => [] end).
  pose (w4 := snd (for_each (poll_item env 5) submitted w3)).
  destruct (proj2 (X11_poll_failure_ends_main env 5 (JudgeError "down"))
              initial_world w1 w2 w3 w4 sample_items submitted
              eq_refl eq_refl eq_refl eq_refl eq_refl) as [Hmain Huploads].
  rewrite Hmain. split; [reflexivity|exact Huploads].
Defined.

(** X12: in the batch that a run uploads, an item that left the first
    loop with a submission id other than 0 has for [judge_result] an
    answer that the judge has given for that id, and never "Judging":
    the run does not upload before every such item has its verdict. *)
Theorem X12_uploaded_verdicts_are_final
    (env : Env) (fuel : nat) (w0 w' : World) (r : Outcome unit)
    (batch : list pydict) :
  uploads (trace w0) = [] ->
  main env fuel w0 = (r, w') ->
  In batch (uploads (trace w')) ->
  exists inputs submitted final w3 w4,
    judged env fuel w0 inputs submitted final w3 w4 /\
    forall i s sid,
      submitted !! i = Some s ->
      ProblemTestState.submission_id s = Some sid ->
      sid <> 0%Z ->
      exists v record,
        v <> "Judging" /\
        (exists tr, judge_get_result env tr sid = inr v) /\
        batch !! i = Some record /\
        dict_get "judge_result" record = Some (JStr v).
Proof.
  intros Hw0 Hrun Hin.
  destruct (main_upload _ _ _ _ _ _ Hw0 Hrun Hin)
    as (_ & inputs & submitted & final & w3 & w4 & Hjudged & ->).
  exists inputs, submitted, final, w3, w4. split; [exact Hjudged|].
  intros i s sid Hs Hsid Hne.
  destruct Hjudged as (w1 & w2 & _ & _ & _ & _ & Hpoll).
  destruct (for_each_lookup _ _ _ _ _ _ _ Hpoll Hs)
    as (wi & wi' & f & _ & Hf & Hfinal & _).
  rewrite (poll_item_poll env fuel s sid Hsid Hne) in Hf.
  apply bind_inv in Hf as [(v & wv & Hv & Hret)|[(e & _ & [=])|[_ [=]]]].
  injection Hret as <- <-.
  destruct (poll_Ok_inv _ _ _ _ _ _ Hv) as (Hfinalv & k & _ & _ & Hans).
  exists v, (output_record (ProblemTestState.set_judge_result v s)).
  split; [exact Hfinalv|]. split; [eauto|].
  rewrite list_lookup_fmap, Hfinal. split; reflexivity.
Qed.

(** On the sample batch: the first item was submitted under the id 7 and
    its record has the verdict of the judge. *)
Lemma X12_uploaded_verdicts_are_final_witness :
  let env :=
    sample_env (sample_http sample_batch) sample_submit sample_get_result in
  let run := main env 5 initial_world in
  exists batch v record,
    In batch (uploads (trace (snd run))) /\
    v <> "Judging" /\
    batch !! 0%nat = Some record /\
    dict_get "judge_result" record = Some (JStr v).
Proof.
  intros env run.
  set (batch := List.hd [] (uploads (trace (snd run)))).
  assert (Hin : In batch (uploads (trace (snd run))))
    by (vm_compute; left; reflexivity).
  destruct (X12_uploaded_verdicts_are_final env 5 initial_world (snd run)
              (fst run) batch eq_refl eq_refl Hin)
    as (inputs & submitted & final & w3 & w4 & Hjudged & Hitem).
  destruct Hjudged as (w1 & w2 & Hload & Hstatus & _ & Hsubmit & _).
  vm_compute in Hload. injection Hload as <- <-.
  vm_compute in Hstatus. injection Hstatus as <-.
  vm_compute in Hsubmit. injection Hsubmit as <- _.
  destruct (Hitem 0%nat
              (ProblemTestState.set_submission_id (Some 7%Z)
                 (sample_item "A" (Some "#include <cstdio>")))
              7%Z eq_refl eq_refl ltac:(discriminate))
    as (v & record & Hv & _ & Hrecord & Hjr).
  exists batch, v, record. auto.
Defined.

(** ** What can go on for ever, and what a status tells *)

















(** X14: "finished" vouches for the upload.  In a run that starts with
    nothing sent, when the status "finished" has been sent, [main] had
    returned: the inputs were loaded, every item had gone through both
    loops, and the one batch of the run, with a record for every item,
    had been uploaded before; no "finished" is sent by a run that has
    uploaded nothing. *)
Theorem X14_finished_is_sent_after_the_upload
    (env : Env) (fuel : nat) (w0 w' : World) (r : Outcome unit) :
  statuses (trace w0) = [] -> uploads (trace w0) = [] ->
  script env fuel w0 = (r, w') ->
  In "finished" (statuses (trace w')) ->
  exists w1 inputs submitted final w3 w4,
    main env fuel w0 = (Ok tt, w1) /\
    judged env fuel w0 inputs submitted final w3 w4 /\
    uploads (trace w') = [map output_record final] /\
    length final = length inputs.
Proof.
  intros Hs0 Hu0 Hrun Hfin. rewrite script_run in Hrun.
  destruct (try_block env fuel w0) as [r1 v1] eqn:Htry.
  assert (Hrest : exists evs,
             trace w' = trace v1 ++ evs /\ uploads evs = [] /\
             ~ In "finished" (statuses evs)).
  { destruct r1 as [[]|e|].
    - injection Hrun as <- <-. exists []. rewrite app_nil_r. auto.
    - unfold except_block in Hrun.
      assert (Hem : emits (fun ev => match ev with
                                     | EvHttp (PutUpload _ _) => False
                                     | EvHttp (PutStatus _ s) => s = "failed"
                                     | _ => True
                                     end) (except_block env e)).
      { unfold except_block. apply emits_bind;
          [now apply emits_append_log|intros _; now apply emits_update_status]. }
      destruct (Hem _ _ _ Hrun) as (evs & Htr & Hevs).
      exists evs. split; [exact Htr|]. clear - Hevs.
      induction Hevs as [|ev evs Hev _ [IH1 IH2]]; [auto|].
      destruct ev as [|[]| | | | |]; simpl; auto; try contradiction.
      split; [exact IH1|]. intros [H|H]; [congruence|auto].
    - injection Hrun as <- <-. exists []. rewrite app_nil_r. auto. }
  destruct Hrest as (evs & Htr & Hu & Hnofin).
  unfold try_block in Htry.
  apply bind_inv in Htry
    as [([] & w1 & Hmain & Hstatus)|[(e & Hmain & _)|[Hmain _]]].
  - exists w1. destruct (main_inv _ _ _ _ _ Hmain) as (evs1 & Htr1 & _ & Hcases).
    destruct Hcases as [(_ & _ & Hne)|(_ & [(_ & Hne)|Hok])]; try congruence.
    destruct Hok as (inputs & submitted & final & w3 & w4 & results
                     & Hjudged & Hbuild & Hu1).
    rewrite (build_results_loaded final) in Hbuild
      by (eapply judged_final_text; eauto).
    injection Hbuild as <-.
    apply update_status_inv in Hstatus as (evs2 & Htr2 & _ & Hu2 & _).
    exists inputs, submitted, final, w3, w4.
    split; [exact Hmain|]. split; [exact Hjudged|]. split.
    + rewrite Htr, Htr2, Htr1, !uploads_app, Hu0, Hu1, Hu2, Hu. reflexivity.
    + eapply judged_length; eauto.
  - exfalso. destruct (main_inv _ _ _ _ _ Hmain) as (evs1 & Htr1 & _ & Hcases).
    rewrite Htr, Htr1, !statuses_app, Hs0 in Hfin. simpl in Hfin.
    apply in_app_or in Hfin as [Hfin|Hfin]; [|auto].
    destruct Hcases as [(Hs & _)|(Hs & _)]; rewrite Hs in Hfin;
      simpl in Hfin; intuition discriminate.
  - exfalso. destruct (main_inv _ _ _ _ _ Hmain) as (evs1 & Htr1 & _ & Hcases).
    rewrite Htr, Htr1, !statuses_app, Hs0 in Hfin. simpl in Hfin.
    apply in_app_or in Hfin as [Hfin|Hfin]; [|auto].
    destruct Hcases as [(Hs & _)|(Hs & _)]; rewrite Hs in Hfin;
      simpl in Hfin; intuition discriminate.
Qed.

(** On the sample batch: the run reports "finished" and has uploaded its
    three records. *)
Lemma X14_finished_is_sent_after_the_upload_witness :
  let env :=
    sample_env (sample_http sample_batch) sample_submit sample_get_result in
  let run := script env 5 initial_world in
  exists final,
    uploads (trace (snd run)) = [map output_record final] /\
    length final = 3%nat.
Proof.
  intros env run.
  destruct (X14_finished_is_sent_after_the_upload env 5 initial_world
              (snd run) (fst run) eq_refl eq_refl eq_refl)
    as (w1 & inputs & submitted & final & w3 & w4 & _ & Hjudged & Hu & Hlen).
  - vm_compute. right. left. reflexivity.
  - exists final. split; [exact Hu|]. rewrite Hlen.
    destruct Hjudged as (v1 & v2 & Hload & _).
    vm_compute in Hload. injection Hload as <- _. reflexivity.
Defined.

(** ** The classifier and white space *)

Lemma lstrip_all_space (ws : string) : all_space ws = true -> lstrip ws = "".
Proof.
  induction ws as [|c ws IH]; simpl; [auto|].
  intros H. apply andb_true_iff in H as [Hc Hws]. rewrite Hc. auto.
Qed.

Lemma lstrip_app_space_l (ws s : string) :
  all_space ws = true -> lstrip (ws ++ s) = lstrip s.
Proof.
  induction ws as [|c ws IH]; simpl; [auto|].
  intros H. apply andb_true_iff in H as [Hc Hws]. rewrite Hc. auto.
Qed.

Lemma lstrip_app_space_r (s ws : string) :
  all_space ws = true ->
  lstrip (s ++ ws) =
  match lstrip s with
  | EmptyString => EmptyString
  | t => (t ++ ws)%string
  end.
Proof.
  intros Hws. induction s as [|c s IH]; simpl.
  - now apply lstrip_all_space.
  - destruct (isspace c); [exact IH|reflexivity].
Qed.

Lemma prefix_app_space (p s ws : string) :
  none_space p = true -> all_space ws = true ->
  String.prefix p (s ++ ws) = String.prefix p s.
Proof.
  intros Hp Hws. revert s. induction p as [|a p IH]; intros s.
  - now destruct s, ws.
  - simpl in Hp. apply andb_true_iff in Hp as [Ha Hp].
    destruct s as [|c s]; simpl.
    + destruct ws as [|c ws]; [reflexivity|]. simpl in Hws.
      apply andb_true_iff in Hws as [Hc _]. simpl.
      destruct (ascii_dec a c) as [->|]; [|reflexivity].
      rewrite Hc in Ha. discriminate.
    + destruct (ascii_dec a c); [now apply IH|reflexivity].
Qed.

Lemma detect_language_lstrip (code : string) :
  detect_language code =
  if String.prefix "#include" (lstrip code) then CPP else PYPY.
Proof.
  unfold detect_language. now rewrite startswith_strip_include.
Qed.

(** X15: [detect_language] does not see the white space around a
    program: white space added before it or after it leaves the language
    unchanged. *)
Theorem X15_detect_language_ignores_surrounding_space
    (before code after : string) :
  all_space before = true -> all_space after = true ->
  detect_language (before ++ code ++ after) = detect_language code.
Proof.
  intros Hb Ha. rewrite !detect_language_lstrip.
  rewrite (lstrip_app_space_l before _ Hb), (lstrip_app_space_r code _ Ha).
  destruct (lstrip code) as [|c s] eqn:Hs; [reflexivity|].
  now rewrite (prefix_app_space "#include" (String c s) after eq_refl Ha).
Qed.

Lemma X15_detect_language_ignores_surrounding_space_witness :
  detect_language (" " ++ "#include <cstdio>" ++ " ") = CPP.
Proof.
  rewrite (X15_detect_language_ignores_surrounding_space
             " " "#include <cstdio>" " " eq_refl eq_refl).
  reflexivity.
Defined.

(** X16: a program made of white space only is not taken for a missing
    program.  The test of the first loop is on the empty string, and the
    classifier is applied to the stripped text: such a program is
    submitted, and as PyPy. *)
Theorem X16_blank_program_is_submitted_as_pypy
    (env : Env) (item : ProblemTestState.t) (c : string) (w : World) :
  ProblemTestState.code item = Some c -> c <> "" -> all_space c = true ->
  trace (snd (submit_item env item w)) =
  trace w ++ [EvSubmit (ProblemTestState.problem_id item) PYPY c].
Proof.
  intros Hcode Hne Hspace. rewrite submit_item_run, Hcode.
  destruct c as [|a c']; [congruence|].
  assert (Hlang : detect_language (String a c') = PYPY).
  { rewrite detect_language_lstrip, (lstrip_all_space _ Hspace).
    reflexivity. }
  simpl. rewrite Hlang. now destruct (judge_submit env _ _ _ _).
Qed.

Lemma X16_blank_program_is_submitted_as_pypy_witness :
  let env :=
    sample_env (sample_http sample_batch) sample_submit sample_get_result in
  trace (snd (submit_item env (sample_item "A" (Some "  ")) initial_world)) =
  [EvSubmit "A" PYPY "  "].
Proof.
  intros env.
  apply (X16_blank_program_is_submitted_as_pypy env
           (sample_item "A" (Some "  ")) "  " initial_world eq_refl);
    [discriminate|reflexivity].
Defined.

(** ** One fetch of the token for a whole run *)

Section OneFetch.

Variable env : Env.
Variable tok0 : string.
Variable exp0 : expiry.
Variable resp0 : Response.

(** The identity endpoint answers every request with the token [tok0],
    which passes the test of [get_oidc_token] whatever the clock reads:
    its expiry is greater than the binary64 sum of the time and 60. *)
Hypothesis identity_answers : forall tr, http env tr GetIdentity = inr resp0.
Hypothesis answer_ok : error_status resp0 = false.
Hypothesis answer_token : text resp0 = tok0.
Hypothesis token_nonempty : tok0 <> "".
Hypothesis token_expiry : jwt_exp env tok0 = inr exp0.
Hypothesis token_lasts :
  forall tr, py_gt exp0 (PrimFloat.add (clock env tr) 60) = Some true.

Lemma thrifty_weaken {A} (pre pre' : World -> Prop) (m : M A) :
  (forall w, pre' w -> pre w) ->
  thrifty_from tok0 pre m -> thrifty_from tok0 pre' m.
Proof using Type. intros Hpre Hm w r w' Hw. apply Hm, Hpre, Hw. Qed.

Lemma thrifty_pure {A} (m : M A) :
  (forall w, exists r, m w = (r, w)) -> thrifty_from tok0 (cached tok0) m.
Proof using Type.
  intros Hm w r w' Hw Hrun. destruct (Hm w) as (r0 & Hr0).
  rewrite Hr0 in Hrun. injection Hrun as <- <-. auto.
Qed.

Lemma thrifty_one {A} (m : M A) (ev : Event) :
  is_fetch ev = false ->
  (forall w, exists r,
       m w = (r, {| token := token w; trace := trace w ++ [ev] |})) ->
  thrifty_from tok0 (cached tok0) m.
Proof using Type.
  intros Hev Hm w r w' Hw Hrun. destruct (Hm w) as (r0 & Hr0).
  rewrite Hr0 in Hrun. injection Hrun as <- <-. split; [exact Hw|].
  unfold budget, fetches. simpl. rewrite List.filter_app, length_app. simpl.
  rewrite Hev. simpl. lia.
Qed.

Lemma thrifty_bind {A B} (pre : World -> Prop) (m : M A) (f : A -> M B) :
  thrifty_from tok0 pre m ->
  (forall a, thrifty_from tok0 (cached tok0) (f a)) ->
  thrifty_from tok0 pre (bind m f).
Proof using Type.
  intros Hm Hf w r w' Hw Hrun.
  apply bind_inv in Hrun as [(a & w1 & Hm1 & Hf1)|[(e & Hm1 & _)|[Hm1 _]]].
  - destruct (Hm _ _ _ Hw Hm1) as [Htok1 Hn1].
    destruct (Hf a _ _ _ Htok1 Hf1) as [Htok2 Hn2].
    split; [exact Htok2|lia].
  - exact (Hm _ _ _ Hw Hm1).
  - exact (Hm _ _ _ Hw Hm1).
Qed.

Lemma thrifty_try_except {A} (pre : World -> Prop) (m : M A)
      (h : exn -> M A) :
  thrifty_from tok0 pre m ->
  (forall e, thrifty_from tok0 (cached tok0) (h e)) ->
  thrifty_from tok0 pre (try_except m h).
Proof using Type.
  intros Hm Hh w r w' Hw Hrun. unfold try_except in Hrun.
  destruct (m w) as [[a|e|] w1] eqn:Hm1.
  - injection Hrun as <- <-. exact (Hm _ _ _ Hw Hm1).
  - destruct (Hm _ _ _ Hw Hm1) as [Htok1 Hn1].
    destruct (Hh e _ _ _ Htok1 Hrun) as [Htok2 Hn2].
    split; [exact Htok2|lia].
  - injection Hrun as <- <-. exact (Hm _ _ _ Hw Hm1).
Qed.

Lemma thrifty_for_each {A B} (f : A -> M B) (l : list A) :
  (forall x, thrifty_from tok0 (cached tok0) (f x)) ->
  thrifty_from tok0 (cached tok0) (for_each f l).
Proof using Type.
  intros Hf. induction l as [|x l IH]; simpl.
  - apply thrifty_pure. unfold ret. eauto.
  - apply thrifty_bind; [apply Hf|]. intros y.
    apply thrifty_bind; [exact IH|]. intros ys.
    apply thrifty_pure. unfold ret. eauto.
Qed.

Lemma thrifty_with_judge {A} (body : M A) :
  thrifty_from tok0 (cached tok0) body ->
  thrifty_from tok0 (cached tok0) (with_judge env body).
Proof using Type.
  intros Hbody w r w' Hw Hrun. unfold with_judge in Hrun.
  assert (Hentered : cached tok0 (entered w)) by exact Hw.
  assert (Hn0 : (fetches (trace (entered w)) + budget (entered w)
                 = fetches (trace w) + budget w)%nat).
  { unfold budget. simpl. rewrite fetches_app.
    change (fetches [EvJudgeEnter]) with 0%nat. lia. }
  destruct (judge_enter env (trace w)) as [e|].
  - injection Hrun as <- <-. split; [exact Hw|exact Hn0].
  - fold (entered w) in Hrun.
    destruct (body (entered w)) as [r1 w1] eqn:Hb.
    destruct (Hbody _ _ _ Hentered Hb) as [Htok1 Hn1].
    assert (Hexit : token (exited w1) = Some tok0 /\
                    (fetches (trace (exited w1)) + budget (exited w1)
                     = fetches (trace w) + budget w)%nat).
    { split; [exact Htok1|]. unfold budget in *. simpl in *.
      rewrite fetches_app. change (fetches [EvJudgeExit]) with 0%nat. lia. }
    destruct r1; injection Hrun as <- <-; try exact Hexit.
    split; [exact Htok1|lia].
Qed.

Lemma thrifty_get_oidc_token :
  thrifty_from tok0 (empty_or_cached tok0) (get_oidc_token env).
Proof using All.
  intros w r w' Hw Hrun. destruct Hw as [Hnone|Hsome].
  - rewrite get_oidc_token_stale in Hrun
      by (unfold cache_stale; now rewrite Hnone).
    rewrite fetch_oidc_token_run in Hrun. simpl in Hrun.
    rewrite identity_answers, answer_ok, answer_token in Hrun.
    injection Hrun as <- <-. split; [reflexivity|].
    unfold budget, cache_test_events. rewrite Hnone. simpl.
    rewrite fetches_app, app_nil_r.
    change (fetches [EvHttp GetIdentity]) with 1%nat. lia.
  - rewrite (get_oidc_token_fresh env w tok0 exp0 Hsome token_nonempty
               token_expiry (token_lasts _)) in Hrun.
    injection Hrun as <- <-. split; [reflexivity|].
    unfold budget. rewrite Hsome. simpl. rewrite fetches_app.
    change (fetches [EvClock]) with 0%nat. lia.
Qed.

Lemma thrifty_requests (req : Request) :
  is_fetch (EvHttp req) = false ->
  thrifty_from tok0 (cached tok0) (requests env req).
Proof using Type.
  intros Hreq. apply thrifty_one with (EvHttp req); [exact Hreq|].
  unfold requests. eauto.
Qed.

Lemma thrifty_raise_for_status (r : Response) :
  thrifty_from tok0 (cached tok0) (raise_for_status r).
Proof using Type.
  apply thrifty_pure. intros w. unfold raise_for_status, raise, ret.
  destruct (_ && _); eauto.
Qed.

Lemma thrifty_lift {A} (x : exn + A) :
  thrifty_from tok0 (cached tok0) (lift x).
Proof using Type.
  apply thrifty_pure. intros w. destruct x; unfold lift, raise, ret; eauto.
Qed.

Lemma thrifty_api_call (mk : string -> Request) :
  (forall tok, is_fetch (EvHttp (mk tok)) = false) ->
  thrifty_from tok0 (empty_or_cached tok0)
    (tok <- get_oidc_token env ;;
     resp <- requests env (mk tok) ;;
     raise_for_status resp).
Proof using All.
  intros Hmk. apply thrifty_bind; [apply thrifty_get_oidc_token|].
  intros tok. apply thrifty_bind; [now apply thrifty_requests|].
  intros resp. apply thrifty_raise_for_status.
Qed.

Lemma cached_empty_or_cached (w : World) :
  cached tok0 w -> empty_or_cached tok0 w.
Proof using Type. intros H. now right. Qed.

Lemma thrifty_update_status (s : string) :
  thrifty_from tok0 (empty_or_cached tok0) (update_status env s).
Proof using All.
  exact (thrifty_api_call (fun tok => PutStatus tok s) (fun _ => eq_refl)).
Qed.

Lemma thrifty_append_log (l : string) :
  thrifty_from tok0 (empty_or_cached tok0) (append_log env l).
Proof using All.
  exact (thrifty_api_call (fun tok => PostLog tok l) (fun _ => eq_refl)).
Qed.

Lemma thrifty_prepare_inputs :
  thrifty_from tok0 (empty_or_cached tok0) (prepare_inputs env).
Proof using All.
  unfold prepare_inputs.
  apply thrifty_bind; [apply thrifty_get_oidc_token|]. intros tok.
  apply thrifty_bind; [now apply thrifty_requests|]. intros resp.
  apply thrifty_bind; [|intros j; apply thrifty_lift].
  apply thrifty_pure. intros w. unfold response_json, raise, ret.
  destruct (json resp); eauto.
Qed.

Lemma thrifty_upload_output (results : list pydict) :
  thrifty_from tok0 (empty_or_cached tok0) (upload_output env results).
Proof using All.
  unfold upload_output.
  apply thrifty_bind; [apply thrifty_get_oidc_token|]. intros tok.
  apply thrifty_bind; [now apply thrifty_requests|]. intros resp.
  apply thrifty_bind; [apply thrifty_raise_for_status|]. intros _.
  apply thrifty_bind; [now apply thrifty_requests|]. intros resp'.
  apply thrifty_raise_for_status.
Qed.

Lemma thrifty_submit_item (item : ProblemTestState.t) :
  thrifty_from tok0 (cached tok0) (submit_item env item).
Proof using Type.
  unfold submit_item.
  destruct (ProblemTestState.code item) as [c|];
    [|apply thrifty_pure; unfold ret; eauto].
  destruct (truthy c); [|apply thrifty_pure; unfold ret; eauto].
  apply thrifty_try_except.
  - apply thrifty_bind; [|intros sid; apply thrifty_pure; unfold ret; eauto].
    eapply thrifty_one with (ev := EvSubmit _ _ c); [reflexivity|].
    unfold submit. eauto.
  - intros e. destruct (is_ProblemNotFoundError e);
      apply thrifty_pure; unfold ret; eauto.
Qed.

Lemma thrifty_poll (fuel : nat) (sid : Z) :
  thrifty_from tok0 (cached tok0) (poll env fuel sid).
Proof using Type.
  induction fuel as [|fuel IH]; simpl.
  - apply thrifty_pure. unfold diverge. eauto.
  - apply thrifty_bind.
    + apply thrifty_one with (EvGetResult sid); [reflexivity|].
      unfold get_result. eauto.
    + intros r. destruct (negb _); [apply thrifty_pure; unfold ret; eauto|].
      apply thrifty_bind; [|intros _; exact IH].
      apply thrifty_one with (EvSleep 1); [reflexivity|].
      unfold time_sleep, emit. eauto.
Qed.

Lemma thrifty_poll_item (fuel : nat) (item : ProblemTestState.t) :
  thrifty_from tok0 (cached tok0) (poll_item env fuel item).
Proof using Type.
  unfold poll_item.
  destruct (negb _); [apply thrifty_pure; unfold ret; eauto|].
  destruct (ProblemTestState.submission_id item) as [sid|];
    [|apply thrifty_pure; unfold ret; eauto].
  apply thrifty_bind; [apply thrifty_poll|].
  intros r. apply thrifty_pure. unfold ret. eauto.
Qed.

Lemma thrifty_main (fuel : nat) :
  thrifty_from tok0 (empty_or_cached tok0) (main env fuel).
Proof using All.
  unfold main.
  apply thrifty_bind; [apply thrifty_prepare_inputs|]. intros inputs.
  apply thrifty_bind.
  { eapply thrifty_weaken; [apply cached_empty_or_cached|].
    apply thrifty_update_status. }
  intros _. apply thrifty_bind.
  { apply thrifty_with_judge. apply thrifty_bind.
    - apply thrifty_for_each, thrifty_submit_item.
    - intros submitted. apply thrifty_for_each, thrifty_poll_item. }
  intros final. apply thrifty_bind; [apply thrifty_lift|]. intros results.
  eapply thrifty_weaken; [apply cached_empty_or_cached|].
  apply thrifty_upload_output.
Qed.

Lemma thrifty_script (fuel : nat) :
  thrifty_from tok0 (empty_or_cached tok0) (script env fuel).
Proof using All.
  unfold script. apply thrifty_try_except.
  - apply thrifty_bind; [apply thrifty_main|]. intros _.
    eapply thrifty_weaken; [apply cached_empty_or_cached|].
    apply thrifty_update_status.
  - intros e. eapply thrifty_weaken; [apply cached_empty_or_cached|].
    apply thrifty_bind; [apply thrifty_append_log|]. intros _.
    eapply thrifty_weaken; [apply cached_empty_or_cached|].
    apply thrifty_update_status.
Qed.

End OneFetch.

(** X17: one fetch serves a whole run.  With an identity endpoint that
    hands out a non-empty token which passes the test of [get_oidc_token]
    at every reading of the clock (its decoded expiry compares greater,
    as Python compares them, than the binary64 sum [time.time() + 60]),
    a run of the script that starts with an empty cache sends exactly one
    request to the identity endpoint, however many items it submits and
    polls and however it ends; a run that starts with that token in the
    cache sends none; and the token is in the cache at the end. *)
Theorem X17_one_token_fetch_per_run
    (env : Env) (fuel : nat) (tok0 : string) (exp0 : expiry)
    (resp0 : Response) (w0 : World) :
  (forall tr, http env tr GetIdentity = inr resp0) ->
  error_status resp0 = false ->
  text resp0 = tok0 ->
  tok0 <> "" ->
  jwt_exp env tok0 = inr exp0 ->
  (forall tr, py_gt exp0 (PrimFloat.add (clock env tr) 60) = Some true) ->
  let w' := snd (script env fuel w0) in
  (token w0 = None ->
   fetches (trace w') = S (fetches (trace w0)) /\ token w' = Some tok0) /\
  (token w0 = Some tok0 ->
   fetches (trace w') = fetches (trace w0) /\ token w' = Some tok0).
Proof.
  intros Hid Hok Htext Hne Hexp Hlasts. cbv zeta.
  destruct (script env fuel w0) as [r w'] eqn:Hrun. simpl.
  pose proof (thrifty_script env tok0 exp0 resp0 Hid Hok Htext Hne Hexp
                Hlasts fuel w0 r w') as H.
  split; intros Hw0.
  - destruct (H (or_introl Hw0) Hrun) as [Htok Hn].
    unfold budget in Hn. rewrite Htok, Hw0 in Hn. split; [lia|exact Htok].
  - destruct (H (or_intror Hw0) Hrun) as [Htok Hn].
    unfold budget in Hn. rewrite Htok, Hw0 in Hn. split; [lia|exact Htok].
Qed.

(** On the sample batch: one request to the identity endpoint in the
    whole run. *)
Lemma X17_one_token_fetch_per_run_witness :
  let env :=
    sample_env (sample_http sample_batch) sample_submit sample_get_result in
  fetches (trace (snd (script env 5 initial_world))) = 1%nat.
Proof.
  intros env.
  pose proof (X17_one_token_fetch_per_run env 5 "token-4600" (ExpInt 4600)
                (ok_response "token-4600" None) initial_world
                (fun _ => eq_refl) eq_refl eq_refl ltac:(discriminate)
                eq_refl (fun _ => eq_refl)) as [H _].
  exact (proj1 (H eq_refl)).
Defined.
